(** * Provider composition engine of code-intel-extensions

    A shallow embedding of [src/shared/providers.ts] (the definition,
    references, hover and document-highlight composers) and of the
    re-registration controller used by [src/shared/lsp/features/references.ts],
    together with the properties the specification states about them.

    Conventions of the embedding:
    - an async generator is the finite sequence of the values it yields before
      it completes; [for await (const x of g)] is a monadic fold over it;
    - every composer runs in the monad [Gen], whose state is the invocation's
      [TelemetryEmitter] and the chronological list of the observable effects:
      a backend being invoked, a telemetry event being logged, a value being
      yielded to the caller;
    - the event names are the ones of the code ([lsifDefinitions],
      [lspDefinitions], [searchDefinitions], ...); the specification calls the
      three backends precise (lsif), protocol (lsp) and heuristic (search). *)

From stdpp Require Import base option list strings gmap.

Local Open Scope string_scope.
Local Open Scope list_scope.

(** ** Data model (the [sourcegraph] extension API types the code uses) *)

Module sourcegraph.

Record Position := { line : nat; character : nat }.

Record Range := { start : Position; end_ : Position }.

(** The parts of a WHATWG [URL] the code reads. *)
Record URL := {
  protocol : string;
  host : string;
  pathname : string;
  search : string;
  hash : string
}.

Record TextDocument := { doc_uri : string; languageId : string; text : string }.

Record ReferenceContext := { includeDeclaration : bool }.

(** [BadgeAttachmentRenderOptions]: only its identity matters here. *)
Record BadgeAttachmentRenderOptions := { kind : string; hoverMessage : string }.

(** [Badged<Location>]: a location, possibly carrying a [badge] property. *)
Record Location := {
  uri : URL;
  range : option Range;
  badge : option BadgeAttachmentRenderOptions
}.

(** [HoverAlert]: identified by its [type]; [summary] is its text. *)
Record HoverAlert := { type : string; summary : string }.

(** [Hover]: the [alerts] property is optional. *)
Record Hover := {
  contents : string;
  hover_range : option Range;
  alerts : option (list HoverAlert)
}.

Record DocumentHighlight := { highlight_range : Range; highlight_kind : string }.

End sourcegraph.

Import sourcegraph.

(** A value of TypeScript type [T | T[] | null]. [sourcegraph.Definition] is
    [Location | Location[] | null]. *)
Inductive Arrayish (T : Type) : Type :=
  | Null
  | Single (value : T)
  | Array (values : list T).

Arguments Null {T}.
Arguments Single {T} value.
Arguments Array {T} values.

Abbreviation DefinitionResult := (Arrayish Location).

(** A value of type [T[] | null] seen as a [T | T[] | null]. *)
Definition ofBatch {T} (batch : option (list T)) : Arrayish T :=
  match batch with
  | Some values => Array values
  | None => Null
  end.

(** ** [./util/helpers] *)

(** Modelled from the spec: [asArray] of [./util/helpers] is not in src/. It
    turns "a single value, a list of values, or null" into the list of values:
    the composers iterate over it, filter it and test its [length]. *)
Definition asArray {T} (value : Arrayish T) : list T :=
  match value with
  | Null => []
  | Single x => [x]
  | Array xs => xs
  end.

(** Modelled from the spec: [nonEmpty] of [./util/helpers] is not in src/. A
    value is empty when it is null or an empty array ("do not emit definition
    events for empty location arrays"). *)
Definition nonEmpty {T} (value : Arrayish T) : bool :=
  match value with
  | Null => false
  | Single _ => true
  | Array xs => negb (bool_decide (xs = []))
  end.

(** Modelled from the spec: [mapArrayish] of [./util/helpers] is not in src/.
    It applies [fn] to a single value or to every value of a list and
    "returns the modified result in the same shape as the input". *)
Definition mapArrayish {T U} (value : Arrayish T) (fn : T → U) : Arrayish U :=
  match value with
  | Null => Null
  | Single x => Single (fn x)
  | Array xs => Array (fn <$> xs)
  end.

(** [value || []] on a [T | T[] | null]: objects and arrays are truthy. *)
Definition orEmptyArray {T} (value : Arrayish T) : Arrayish T :=
  match value with
  | Null => Array []
  | _ => value
  end.

(** ** [./telemetry] *)

Module TelemetryEmitter.

(** Modelled from the spec: the class [TelemetryEmitter] of [./telemetry] is
    not in src/. An instance holds the set of the names it has fired. *)
Record t := { emitted : gset string }.

(** Modelled from the spec: [new TelemetryEmitter()], an instance that has
    fired nothing. *)
Definition new : t := {| emitted := ∅ |}.

(** Modelled from the spec: "on first call with a given name for a given
    emitter instance, performs the external emission side effect and records
    the name as fired; on any later call with the same name, no-op". The
    result is the instance afterwards and the emissions performed. *)
Definition emitOnce (action : string) (emitter : t) : t * list string :=
  if decide (action ∈ emitted emitter)
  then (emitter, [])
  else ({| emitted := {[action]} ∪ emitted emitter |}, [action]).

(** [n] calls of [emitOnce] with the same name: the emissions they perform. *)
Fixpoint emitOnceTimes (n : nat) (action : string) (emitter : t) : t * list string :=
  match n with
  | 0 => (emitter, [])
  | S n' =>
      let '(emitter', out) := emitOnce action emitter in
      let '(emitter'', out') := emitOnceTimes n' action emitter' in
      (emitter'', out ++ out')
  end.

End TelemetryEmitter.

(** ** The generator monad *)

Inductive Backend :=
  | LsifBackend             (* lsifProvider *)
  | LspBackend              (* lspProvider *)
  | SearchBackend           (* searchProvider *)
  | SearchDefinitionBackend (* searchDefinitionProvider *)
  | SearchHoverBackend.     (* searchHoverProvider *)

Global Instance Backend_eq_dec : EqDecision Backend.
Proof. solve_decision. Defined.

(** What one invocation of a composer does that can be seen from outside. *)
Inductive Effect (R : Type) : Type :=
  | Invoked (backend : Backend)
  | Telemetry (action : string)
  | Yielded (result : R).

Arguments Invoked {R} backend.
Arguments Telemetry {R} action.
Arguments Yielded {R} result.

Record GenState (R : Type) : Type := {
  emitter : TelemetryEmitter.t;
  effects : list (Effect R)
}.

Arguments emitter {R} _.
Arguments effects {R} _.

Definition Gen (R A : Type) : Type := GenState R → A * GenState R.

Global Instance Gen_ret {R} : MRet (Gen R) := λ A x s, (x, s).

Global Instance Gen_bind {R} : MBind (Gen R) :=
  λ A B f m s, let '(x, s') := m s in f x s'.

Definition perform {R} (e : Effect R) : Gen R unit :=
  λ s, (tt, {| emitter := emitter s; effects := effects s ++ [e] |}).

(** [yield result] *)
Definition yield {R} (result : R) : Gen R unit := perform (Yielded result).

(** Calling a backend: the call is recorded, its outcome is [result]. *)
Definition invoke {R A} (backend : Backend) (result : A) : Gen R A :=
  perform (Invoked backend);; mret result.

(** [await emitter.emitOnce(action)] *)
Definition emitOnce {R} (action : string) : Gen R unit :=
  λ s, let '(emitter', out) := TelemetryEmitter.emitOnce action (emitter s) in
       (tt, {| emitter := emitter'; effects := effects s ++ (Telemetry <$> out) |}).

(** [for await (const x of xs) { acc = body(acc, x) }], where [acc] stands for
    the local variables the loop body assigns. *)
Fixpoint forAwait {R X Acc} (xs : list X) (acc : Acc) (body : Acc → X → Gen R Acc)
    : Gen R Acc :=
  match xs with
  | [] => mret acc
  | x :: xs' => acc' ← body acc x; forAwait xs' acc' body
  end.

Inductive LoopControl := Continue | Break.

(** A [for await] loop whose body may [break]. *)
Fixpoint forAwaitBreak {R X Acc} (xs : list X) (acc : Acc)
    (body : Acc → X → Gen R (Acc * LoopControl)) : Gen R Acc :=
  match xs with
  | [] => mret acc
  | x :: xs' =>
      '(acc', control) ← body acc x;
      match control with
      | Break => mret acc'
      | Continue => forAwaitBreak xs' acc' body
      end
  end.

(** [const emitter = new TelemetryEmitter()]: from here on [emitter] is a new
    instance. *)
Definition newTelemetryEmitter {R} : Gen R unit :=
  λ s, (tt, {| emitter := TelemetryEmitter.new; effects := effects s |}).

(** One invocation of a generator function, nothing being done yet:
    everything the invocation does. [stale] is whatever emitter an earlier
    invocation may have left behind. *)
Definition runGenFrom {R} (stale : TelemetryEmitter.t) (body : Gen R unit)
    : list (Effect R) :=
  effects (body {| emitter := stale; effects := [] |}).2.

Definition runGen {R} (body : Gen R unit) : list (Effect R) :=
  runGenFrom TelemetryEmitter.new body.

(** The values an invocation yields, in order. *)
Definition yields {R} (es : list (Effect R)) : list R :=
  omap (λ e, match e with Yielded r => Some r | _ => None end) es.

(** The telemetry events an invocation logs, in order. *)
Definition telemetry {R} (es : list (Effect R)) : list string :=
  omap (λ e, match e with Telemetry a => Some a | _ => None end) es.

(** The backends an invocation calls, in order. *)
Definition invoked {R} (es : list (Effect R)) : list Backend :=
  omap (λ e, match e with Invoked b => Some b | _ => None end) es.

(** ** [src/shared/providers.ts] *)

Record DefinitionAndHover := {
  definition : DefinitionResult;   (* sourcegraph.Definition | null *)
  hover : option Hover             (* sourcegraph.Hover | null *)
}.

Definition DefinitionAndHoverProvider :=
  TextDocument → Position → option DefinitionAndHover.

Definition DefinitionProvider :=
  TextDocument → Position → list DefinitionResult.

Definition ReferencesProvider :=
  TextDocument → Position → ReferenceContext → list (option (list Location)).

Definition HoverProvider :=
  TextDocument → Position → list (option Hover).

Definition DocumentHighlightProvider :=
  TextDocument → Position → list (option (list DocumentHighlight)).

(** [element => ({ ...element, badge })] on a location. *)
Definition withBadge (badge : BadgeAttachmentRenderOptions) (element : Location) : Location :=
  {| uri := uri element; range := range element; badge := Some badge |}.

Definition badgeValues (value : DefinitionResult) (badge : BadgeAttachmentRenderOptions)
    : DefinitionResult :=
  mapArrayish value (withBadge badge).

(** [{ ...hover, alerts }] *)
Definition withAlerts (alerts : list HoverAlert) (h : Hover) : Hover :=
  {| contents := contents h; hover_range := hover_range h; alerts := Some alerts |}.

(** [{ ...hover, ...(alerts ? { alerts } : {}) }] *)
Definition withOptionalAlerts (alerts : option (list HoverAlert)) (h : Hover) : Hover :=
  match alerts with
  | Some alerts => withAlerts alerts h
  | None => h
  end.

(** "Gets an opaque value that is the same for all locations within a file but
    different from other files." *)
Definition file (location_ : Location) : string :=
  host (uri location_) +:+ " " +:+ pathname (uri location_) +:+ " " +:+ hash (uri location_).

Module LSIFSupport.

(** Modelled from the spec: the enumeration [LSIFSupport] of
    [./language-specs/spec] is not in src/. It is the "declared precise-support
    level (none / experimental / robust)"; the code names the three members. *)
Inductive t := None | Experimental | Robust.

End LSIFSupport.

Module HoverAlerts.

(** The alert constants of [./hover-alerts], which is not in src/: the
    composers are parametric in them. *)
Record t := {
  lsif : HoverAlert;
  lsifPartialHoverOnly : HoverAlert;
  lsifPartialDefinitionOnly : HoverAlert;
  lsp : HoverAlert;
  searchLSIFSupportNone : HoverAlert;
  searchLSIFSupportExperimental : HoverAlert;
  searchLSIFSupportRobust : HoverAlert
}.

End HoverAlerts.

Section Providers.

(** [impreciseBadge] of [./badges], which is not in src/. *)
Variable impreciseBadge : BadgeAttachmentRenderOptions.

Definition createDefinitionProvider
    (lsifProvider : DefinitionAndHoverProvider)
    (searchProvider : DefinitionProvider)
    (lspProvider : option DefinitionProvider)
    (textDocument : TextDocument) (position : Position)
    : Gen DefinitionResult unit :=
  newTelemetryEmitter;;
  lsifWrapper ← invoke LsifBackend (lsifProvider textDocument position);
  hasPreciseResult ←
    match lsifWrapper with
    | Some lsifWrapper =>
        forAwait (asArray (orEmptyArray (definition lsifWrapper))) false (λ _ lsifResult,
          emitOnce "lsifDefinitions";;
          yield (Single lsifResult);;
          mret true)
    | None => mret false
    end;
  if hasPreciseResult : bool then
    (* Found the best precise definition we'll get. Stop. *)
    mret tt
  else
    match lspProvider with
    | Some lspProvider =>
        lspResults ← invoke LspBackend (lspProvider textDocument position);
        forAwait lspResults tt (λ _ lspResult,
          (if nonEmpty lspResult then emitOnce "lspDefinitions" else mret tt);;
          yield lspResult)
    | None =>
        (* No results so far, fall back to search *)
        searchResults ← invoke SearchBackend (searchProvider textDocument position);
        forAwait searchResults tt (λ _ searchResult,
          (if nonEmpty searchResult then emitOnce "searchDefinitions" else mret tt);;
          yield (badgeValues searchResult impreciseBadge))
    end.

Definition createReferencesProvider
    (lsifProvider : ReferencesProvider)
    (searchProvider : ReferencesProvider)
    (lspProvider : option ReferencesProvider)
    (textDocument : TextDocument) (position : Position) (context : ReferenceContext)
    : Gen (option (list Location)) unit :=
  newTelemetryEmitter;;
  lsifBatches ← invoke LsifBackend (lsifProvider textDocument position context);
  lsifResults ←
    forAwait lsifBatches [] (λ lsifResults lsifResult,
      if nonEmpty (ofBatch lsifResult) then
        emitOnce "lsifReferences";;
        yield lsifResult;;
        mret (asArray (ofBatch lsifResult))   (* lsifResults = lsifResult *)
      else mret lsifResults);
  match lspProvider with
  | Some lspProvider =>
      lspBatches ← invoke LspBackend (lspProvider textDocument position context);
      forAwait lspBatches tt (λ _ lspResult,
        let filteredResults := asArray (ofBatch lspResult) in
        if bool_decide (length filteredResults = 0) then
          mret tt   (* continue *)
        else
          (* Re-emit the last results from the previous provider *)
          emitOnce "lspReferences";;
          yield (Some (lsifResults ++ filteredResults)))
  | None =>
      let lsifFiles : gset string := list_to_set (file <$> lsifResults) in
      searchBatches ← invoke SearchBackend (searchProvider textDocument position context);
      forAwait searchBatches tt (λ _ searchResult,
        let filteredResults :=
          filter (λ location, file location ∉ lsifFiles) (asArray (ofBatch searchResult)) in
        if bool_decide (length filteredResults = 0) then
          mret tt   (* continue *)
        else
          emitOnce "searchReferences";;
          yield (Some (lsifResults ++
                       asArray (badgeValues (Array filteredResults) impreciseBadge))))
  end.

Variable alertConstants : HoverAlerts.t.

(** [const searchAlerts = ...]; the enumeration has no fourth member, so
    the [undefined] branch of the code is never taken. *)
Definition searchAlerts (lsifSupport : LSIFSupport.t) : option (list HoverAlert) :=
  match lsifSupport with
  | LSIFSupport.None => Some [HoverAlerts.searchLSIFSupportNone alertConstants]
  | LSIFSupport.Experimental => Some [HoverAlerts.searchLSIFSupportExperimental alertConstants]
  | LSIFSupport.Robust => Some [HoverAlerts.searchLSIFSupportRobust alertConstants]
  end.

(** The part of the hover generator after the precise lookup (from
    [if (lspProvider)] on), given the value of [hasPreciseDefinition]. *)
Definition hoverWithoutPreciseHover
    (searchAlerts : option (list HoverAlert))
    (searchHoverProvider : HoverProvider)
    (lspProvider : option HoverProvider)
    (textDocument : TextDocument) (position : Position)
    (hasPreciseDefinition : bool) : Gen Hover unit :=
  match lspProvider with
  | Some lspProvider =>
      lspResults ← invoke LspBackend (lspProvider textDocument position);
      forAwait lspResults (Some [HoverAlerts.lsp alertConstants]) (λ alerts lspResult,
        match lspResult with
        | Some lspResult =>
            (* Delegate to LSP if it's available. *)
            emitOnce "lspHover";;
            yield (withOptionalAlerts alerts lspResult);;
            mret None   (* alerts = undefined *)
        | None => mret alerts
        end);;
      mret tt
  | None =>
      let alerts :=
        if hasPreciseDefinition
        then Some [HoverAlerts.lsifPartialDefinitionOnly alertConstants]
        else searchAlerts in
      searchResults ← invoke SearchHoverBackend (searchHoverProvider textDocument position);
      forAwait searchResults alerts (λ alerts searchResult,
        match searchResult with
        | Some searchResult =>
            emitOnce "searchHover";;
            yield (withOptionalAlerts alerts searchResult);;
            mret None   (* alerts = undefined *)
        | None => mret alerts
        end);;
      mret tt
  end.

Definition createHoverProvider
    (lsifSupport : LSIFSupport.t)
    (lsifProvider : DefinitionAndHoverProvider)
    (searchDefinitionProvider : DefinitionProvider)
    (searchHoverProvider : HoverProvider)
    (lspProvider : option HoverProvider)
    (textDocument : TextDocument) (position : Position)
    : Gen Hover unit :=
  let fallThrough :=
    hoverWithoutPreciseHover (searchAlerts lsifSupport) searchHoverProvider lspProvider
      textDocument position in
  newTelemetryEmitter;;
  lsifWrapper ← invoke LsifBackend (lsifProvider textDocument position);
  match lsifWrapper with
  | Some lsifWrapper =>
      match hover lsifWrapper with
      | Some lsifHover =>
          partialPreciseData ←
            (if negb (nonEmpty (definition lsifWrapper)) then
               searchResults ← invoke SearchDefinitionBackend
                                 (searchDefinitionProvider textDocument position);
               forAwaitBreak searchResults false (λ partialPreciseData searchResult,
                 if nonEmpty searchResult
                 then mret (true, Break)
                 else mret (partialPreciseData, Continue))
             else mret false);
          let alerts :=
            if negb partialPreciseData
            then [HoverAlerts.lsif alertConstants]
            else [HoverAlerts.lsifPartialHoverOnly alertConstants] in
          (* Found the best precise hover text we'll get. Stop. *)
          emitOnce "lsifHover";;
          yield (withAlerts alerts lsifHover)
      | None =>
          fallThrough (nonEmpty (definition lsifWrapper))
      end
  | None => fallThrough false
  end.

Definition createDocumentHighlightProvider
    (lsifProvider : DocumentHighlightProvider)
    (searchProvider : DocumentHighlightProvider)
    (lspProvider : option DocumentHighlightProvider)
    (textDocument : TextDocument) (position : Position)
    : Gen (option (list DocumentHighlight)) unit :=
  newTelemetryEmitter;;
  lsifBatches ← invoke LsifBackend (lsifProvider textDocument position);
  forAwait lsifBatches tt (λ _ lsifResult,
    if bool_decide (is_Some lsifResult) then
      emitOnce "lsifDocumentHighlight";;
      yield lsifResult
    else mret tt).

End Providers.

(** ** [src/shared/lsp/features/util]: [reregisterOnChange]

    The function itself is not in src/ (its test [util.test.ts] and its caller
    [referencesFeature.register] are). *)

Section ReregisterOnChange.

(** The type of the values of configuration fields, compared with [===]. *)
Context {V : Type} `{EqDecision V}.

(** A configuration snapshot: an object, from field names to values. *)
Abbreviation Snapshot := (gmap string V).

(** What the controller does to the outside: a call of [registerFn] with a
    snapshot, returning the handle numbered by the call ([register.onCall(i)]
    of the test), and the disposal ([unsubscribe]) of a handle. *)
Inductive RegistrationEvent :=
  | Registered (handle : nat) (value : Snapshot)
  | Disposed (handle : nat).

(** Modelled from the spec: the state of the reconfiguration controller,
    "previous configuration snapshot, current RegistrationHandle", with
    whether it is still subscribed to the configuration stream and the
    events so far. *)
Record Controller := {
  previous : Snapshot;
  registration : option nat;
  subscribed : bool;
  registerCalls : nat;
  events : list RegistrationEvent
}.

(** Modelled from the spec: "compare only trackedFields (shallow equality per
    field) against the previous snapshot". *)
Definition sameFields (fields : list string) (a b : Snapshot) : bool :=
  forallb (λ field, bool_decide (a !! field = b !! field)) fields.

(** Modelled from the spec: "call registerFn(newSnapshot), store the new handle,
    update the stored snapshot to the full new snapshot (not just tracked
    fields)". *)
Definition callRegister (value : Snapshot) (c : Controller) : Controller :=
  {| previous := value;
     registration := Some (registerCalls c);
     subscribed := subscribed c;
     registerCalls := S (registerCalls c);
     events := events c ++ [Registered (registerCalls c) value] |}.

(** Modelled from the spec: "dispose the current handle", if there is one. *)
Definition disposeRegistration (c : Controller) : Controller :=
  match registration c with
  | Some handle =>
      {| previous := previous c;
         registration := None;
         subscribed := subscribed c;
         registerCalls := registerCalls c;
         events := events c ++ [Disposed handle] |}
  | None => c
  end.

(** Modelled from the spec: "On subscription, read the current snapshot, call
    registerFn(snapshot), store the returned handle." *)
Definition reregisterOnChange (fields : list string) (initial : Snapshot) : Controller :=
  callRegister initial
    {| previous := initial; registration := None; subscribed := true;
       registerCalls := 0; events := [] |}.

(** Modelled from the spec: "On every subsequent snapshot emitted by
    configStream, compare only trackedFields against the previous snapshot.
    If none differ, no action. If any differ, dispose the current handle,
    call registerFn(newSnapshot), store the new handle, update the stored
    snapshot to the full new snapshot." *)
Definition onSnapshot (fields : list string) (value : Snapshot) (c : Controller)
    : Controller :=
  if subscribed c then
    if sameFields fields (previous c) value then c
    else callRegister value (disposeRegistration c)
  else c.

(** Modelled from the spec: "Returns a disposable; disposing it unsubscribes
    from configStream and disposes whatever handle is currently active." *)
Definition unsubscribe (c : Controller) : Controller :=
  if subscribed c then
    let c' := disposeRegistration c in
    {| previous := previous c';
       registration := registration c';
       subscribed := false;
       registerCalls := registerCalls c';
       events := events c' |}
  else c.

(** What can happen to a controller after its creation. *)
Inductive ControllerInput :=
  | Next (value : Snapshot)   (* [observable.next(value)] *)
  | Unsubscribe.              (* disposing the returned controller *)

Definition stepController (fields : list string) (c : Controller) (i : ControllerInput)
    : Controller :=
  match i with
  | Next value => onSnapshot fields value c
  | Unsubscribe => unsubscribe c
  end.

Definition runController (fields : list string) (initial : Snapshot)
    (inputs : list ControllerInput) : Controller :=
  foldl (stepController fields) (reregisterOnChange fields initial) inputs.

(** The snapshots a list of [Next] inputs carries. *)
Definition snapshotsOf (values : list Snapshot) : list ControllerInput :=
  Next <$> values.

(** The calls of [registerFn] in a list of events, with their snapshots. *)
Definition registerCallsIn (es : list RegistrationEvent) : list Snapshot :=
  omap (λ e, match e with Registered _ v => Some v | Disposed _ => None end) es.

(** The handles disposed in a list of events. *)
Definition disposedIn (es : list RegistrationEvent) : list nat :=
  omap (λ e, match e with Disposed h => Some h | Registered _ _ => None end) es.

(** The handles registered in a list of events. *)
Definition registeredIn (es : list RegistrationEvent) : list nat :=
  omap (λ e, match e with Registered h _ => Some h | Disposed _ => None end) es.

(** The handles that are active after a list of events: registered and not
    disposed since. *)
Definition activeHandles (es : list RegistrationEvent) : list nat :=
  filter (λ h, h ∉ disposedIn es) (registeredIn es).

(** Two snapshots have the same value in every tracked field. *)
Definition agreeOn (fields : list string) (a b : Snapshot) : Prop :=
  ∀ field, field ∈ fields → a !! field = b !! field.

(** At every moment of a history of events at most one handle is active. *)
Definition atMostOneActive (es : list RegistrationEvent) : Prop :=
  ∀ moment, moment `prefix_of` es → (length (activeHandles moment) ≤ 1)%nat.

(** The handle a controller holds, as a list. *)
Definition heldHandle (c : Controller) : list nat :=
  match registration c with
  | Some handle => [handle]
  | None => []
  end.

(** What holds of a controller however it was driven. *)
Definition controllerInvariant (c : Controller) : Prop :=
  atMostOneActive (events c) ∧
  NoDup (disposedIn (events c)) ∧
  activeHandles (events c) = heldHandle c ∧
  (∀ handle, handle ∈ registeredIn (events c) → (handle < registerCalls c)%nat) ∧
  (∀ handle, handle ∈ disposedIn (events c) → (handle < registerCalls c)%nat).

End ReregisterOnChange.

Arguments RegistrationEvent V : clear implicits.
Arguments Controller V : clear implicits.
Arguments ControllerInput V : clear implicits.

(** [referencesFeature.register] of [src/shared/lsp/features/references.ts]
    tracks one field of its options; [registerFn] wraps and registers the
    references provider, which the events of the controller stand for. *)
Definition referencesFeatureFields : list string := ["externalReferencesProvider"].

Definition referencesFeatureRegister {V} `{EqDecision V} (featureOptions : gmap string V)
    : Controller V :=
  reregisterOnChange referencesFeatureFields featureOptions.

(** ** Closed forms of the loops, used to state and prove the properties *)

Section LoopClosedForm.

Context {R X Acc : Type}.

(** A loop body that may log [action], may yield a value and assigns the
    local variables: [emits] says when [emitOnce action] is reached, [out]
    what is yielded if anything, [next] the assignment. *)
Variables (action : string) (emits : X → bool)
          (out : Acc → X → option R) (next : Acc → X → Acc).

Definition loopBody (acc : Acc) (x : X) : Gen R Acc :=
  (if emits x then emitOnce action else mret tt);;
  match out acc x with Some r => yield r | None => mret tt end;;
  mret (next acc x).

(** The effects of the loop over [xs]; [fired] says whether [action] had been
    logged by this invocation before. *)
Fixpoint loopEffects (fired : bool) (acc : Acc) (xs : list X) : list (Effect R) :=
  match xs with
  | [] => []
  | x :: xs' =>
      (if emits x && negb fired then [Telemetry action] else []) ++
      match out acc x with Some r => [Yielded r] | None => [] end ++
      loopEffects (fired || emits x) (next acc x) xs'
  end.

(** The values the loop yields over [xs]. *)
Fixpoint loopYields (acc : Acc) (xs : list X) : list R :=
  match xs with
  | [] => []
  | x :: xs' =>
      match out acc x with Some r => [r] | None => [] end ++
      loopYields (next acc x) xs'
  end.

End LoopClosedForm.

(** The emitter after [emitOnce action]. *)
Definition fire (action : string) (e : TelemetryEmitter.t) : TelemetryEmitter.t :=
  (TelemetryEmitter.emitOnce action e).1.

(** Whether the emitter has fired [action]. *)
Definition hasFired (action : string) (e : TelemetryEmitter.t) : bool :=
  bool_decide (action ∈ TelemetryEmitter.emitted e).

(** The invariant of an invocation: every event logged is recorded in the
    invocation's emitter, and no event is logged twice. *)
Definition emitterConsistent {R} (s : GenState R) : Prop :=
  NoDup (telemetry (effects s)) ∧
  ∀ action, action ∈ telemetry (effects s) → action ∈ TelemetryEmitter.emitted (emitter s).

(** A computation keeps [emitterConsistent], whatever it returns. *)
Definition preserves {R A} (m : Gen R A) : Prop :=
  ∀ s, emitterConsistent s → emitterConsistent (m s).2.

(** A generator body sets [emitterConsistent] up when it starts an invocation,
    whatever emitter was there before. *)
Definition establishes {R A} (m : Gen R A) : Prop :=
  ∀ s, effects s = [] → emitterConsistent (m s).2.

(** The locations of the precise backend's answer to a definition query:
    [asArray(lsifWrapper.definition || [])], none when the answer is null. *)
Definition preciseDefinitions (answer : option DefinitionAndHover) : list Location :=
  match answer with
  | Some lsifWrapper => asArray (orEmptyArray (definition lsifWrapper))
  | None => []
  end.

(** The assignment of the precise loop of the references composer:
    [lsifResults = lsifResult] for a non-empty batch. *)
Definition lsifResultsStep (lsifResults : list Location) (lsifResult : option (list Location))
    : list Location :=
  if nonEmpty (ofBatch lsifResult) then asArray (ofBatch lsifResult) else lsifResults.

(** The value of [lsifResults] after the precise loop over [batches]. *)
Definition lsifResultsAfter (lsifResults : list Location)
    (batches : list (option (list Location))) : list Location :=
  foldl lsifResultsStep lsifResults batches.

(** The locations of a heuristic batch outside the files of [lsifResults]:
    [asArray(searchResult).filter(location => !lsifFiles.has(file(location)))]. *)
Definition uncovered (lsifResults : list Location) (searchResult : option (list Location))
    : list Location :=
  filter (λ location, file location ∉ (list_to_set (file <$> lsifResults) : gset string))
         (asArray (ofBatch searchResult)).

(** What a hover loop yields for a backend value, given the pending alerts:
    [{ ...result, ...(alerts ? { alerts } : {}) }] for a non-null value. *)
Definition hoverOut (alerts : option (list HoverAlert)) (result : option Hover)
    : option Hover :=
  withOptionalAlerts alerts <$> result.

(** The assignment of a hover loop: [alerts = undefined] after a yield. *)
Definition hoverNext (alerts : option (list HoverAlert)) (result : option Hover)
    : option (list HoverAlert) :=
  match result with
  | Some _ => None
  | None => alerts
  end.

(** The non-null values of a backend's hover sequence, in order. *)
Definition nonNull {T} (results : list (option T)) : list T := omap id results.

(** The alert set put on the first of a sequence of hovers, the others left
    as they are. *)
Definition alertFirst (alerts : option (list HoverAlert)) (hovers : list Hover)
    : list Hover :=
  match hovers with
  | [] => []
  | first :: others => withOptionalAlerts alerts first :: others
  end.

(** What the hover composer does after a precise lookup without hover text,
    given the value of [hasPreciseDefinition]. *)
Definition fallThroughEffects (alertConstants : HoverAlerts.t)
    (lsifSupport : LSIFSupport.t) (searchHoverProvider : HoverProvider)
    (lspProvider : option HoverProvider)
    (textDocument : TextDocument) (position : Position)
    (hasPreciseDefinition : bool) : list (Effect Hover) :=
  match lspProvider with
  | Some lspProvider =>
      Invoked LspBackend ::
      loopEffects "lspHover" (λ r, bool_decide (is_Some r)) hoverOut hoverNext false
        (Some [HoverAlerts.lsp alertConstants]) (lspProvider textDocument position)
  | None =>
      Invoked SearchHoverBackend ::
      loopEffects "searchHover" (λ r, bool_decide (is_Some r)) hoverOut hoverNext false
        (if hasPreciseDefinition
         then Some [HoverAlerts.lsifPartialDefinitionOnly alertConstants]
         else searchAlerts alertConstants lsifSupport)
        (searchHoverProvider textDocument position)
  end.

(** The most recent non-empty batch of a sequence of batches, the empty list
    when there is none. *)
Definition lastNonEmptyBatch (batches : list (option (list Location))) : list Location :=
  default [] (last (filter (λ batch, batch ≠ []) ((λ b, asArray (ofBatch b)) <$> batches))).

(** The locations of a heuristic batch that are in none of the files of
    [precise]: the filter of the references composer, on lists. *)
Definition outsideFilesOf (precise : list Location) (batch : option (list Location))
    : list Location :=
  filter (λ location, file location ∉ file <$> precise) (asArray (ofBatch batch)).

(** The non-empty batches of a references backend, in order. *)
Definition nonEmptyBatches (batches : list (option (list Location)))
    : list (option (list Location)) :=
  filter (λ batch, nonEmpty (ofBatch batch)) batches.

(** The hover text of the precise backend's answer, if it has one. *)
Definition preciseHover (answer : option DefinitionAndHover) : option Hover :=
  match answer with
  | Some lsifWrapper => hover lsifWrapper
  | None => None
  end.

(** The value of [hasPreciseDefinition] where the hover generator reads it:
    after a precise lookup that has no hover text (with a hover text the
    generator returns before the variable is assigned). *)
Definition hasPreciseDefinition (answer : option DefinitionAndHover) : bool :=
  match answer with
  | Some lsifWrapper => nonEmpty (definition lsifWrapper)
  | None => false
  end.

(** The statement "every value yielded after the first carries no alerts". *)
Definition laterYieldsCarryNoAlerts (hovers : list Hover) : Prop :=
  ∀ h, h ∈ tail hovers → alerts h = None.

(** ** Concrete inputs, on which the properties are exercised *)

Module Samples.

Definition doc : TextDocument :=
  {| doc_uri := "git://repo?rev#/a.ts"; languageId := "typescript"; text := "" |}.

Definition pos : Position := {| line := 3; character := 7 |}.

Definition ctx : ReferenceContext := {| includeDeclaration := false |}.

Definition uriOf (path : string) : URL :=
  {| protocol := "git:"; host := "repo"; pathname := ""; search := "?rev"; hash := path |}.

Definition at_ (path : string) (l : nat) : Location :=
  {| uri := uriOf path;
     range := Some {| start := {| line := l; character := 0 |};
                      end_ := {| line := l; character := 5 |} |};
     badge := None |}.

Definition locA : Location := at_ "#/a.ts" 1.
Definition locA' : Location := at_ "#/a.ts" 9.
Definition locB : Location := at_ "#/b.ts" 2.
Definition locC : Location := at_ "#/c.ts" 4.
Definition locD : Location := at_ "#/d.ts" 6.

Definition imprecise : BadgeAttachmentRenderOptions :=
  {| kind := "info"; hoverMessage := "search-based result" |}.

Definition alert (name : string) : HoverAlert := {| type := name; summary := name |}.

Definition alertConstants : HoverAlerts.t :=
  {| HoverAlerts.lsif := alert "lsif";
     HoverAlerts.lsifPartialHoverOnly := alert "lsifPartialHoverOnly";
     HoverAlerts.lsifPartialDefinitionOnly := alert "lsifPartialDefinitionOnly";
     HoverAlerts.lsp := alert "lsp";
     HoverAlerts.searchLSIFSupportNone := alert "searchLSIFSupportNone";
     HoverAlerts.searchLSIFSupportExperimental := alert "searchLSIFSupportExperimental";
     HoverAlerts.searchLSIFSupportRobust := alert "searchLSIFSupportRobust" |}.

Definition hoverText (text : string) : Hover :=
  {| contents := text; hover_range := None; alerts := None |}.

(** A hover value that carries an alert of the backend's own. *)
Definition hoverWithOwnAlert (text : string) : Hover :=
  {| contents := text; hover_range := None; alerts := Some [alert "backend"] |}.

(** Precise backend: two definitions, no hover text. *)
Definition preciseTwoDefinitions : DefinitionAndHoverProvider :=
  λ _ _, Some {| definition := Array [locA; locB]; hover := None |}.

(** Precise backend: no definition at all. *)
Definition preciseNothing : DefinitionAndHoverProvider := λ _ _, None.

(** Precise backend: hover text, empty definition. *)
Definition preciseHoverOnly : DefinitionAndHoverProvider :=
  λ _ _, Some {| definition := Array []; hover := Some (hoverText "H") |}.

(** A definition backend that signals "no result" twice around a result. *)
Definition definitionsWithEmpties : DefinitionProvider :=
  λ _ _, [Null; Array []; Array [locC]; Array []; Single locD].

Definition noDefinitions : DefinitionProvider := λ _ _, [].

(** A hover backend whose second value has an alert of its own. *)
Definition hoversWithOwnAlert : HoverProvider :=
  λ _ _, [None; Some (hoverText "first"); Some (hoverWithOwnAlert "second")].

Definition noHovers : HoverProvider := λ _ _, [].

(** A precise references backend whose batches are not cumulative. *)
Definition preciseNotCumulative : ReferencesProvider :=
  λ _ _ _, [Some [locA]; None; Some [locB]; Some []].

Definition referencesEverywhere : ReferencesProvider :=
  λ _ _ _, [Some [locA']; None; Some [locB; locC]; Some [locA'; locD]].

Definition noReferences : ReferencesProvider := λ _ _ _, [].

(** The [TestSettings] of [util.test.ts]. *)
Definition settings (foo bar baz : string) : gmap string string :=
  <["foo" := foo]> (<["bar" := bar]> (<["baz" := baz]> ∅)).

(** A heuristic hover backend with a null before and between its values. *)
Definition hoversWithNulls : HoverProvider :=
  λ _ _, [None; Some (hoverText "first"); None; Some (hoverText "second")].

(** A precise references backend that has nothing to say. *)
Definition preciseEmptyBatches : ReferencesProvider := λ _ _ _, [None; Some []].

(** Precise backend: a definition and no hover text. *)
Definition preciseDefinitionOnly : DefinitionAndHoverProvider :=
  λ _ _, Some {| definition := Single locA; hover := None |}.

End Samples.

(** ** Notions used to state further properties *)

(** Whether a string has a space in it. *)
Fixpoint hasSpace (s : string) : bool :=
  match s with
  | EmptyString => false
  | String c rest => bool_decide (String c EmptyString = " ") || hasSpace rest
  end.

(** Every telemetry event of a sequence of effects is directly followed by
    a value being yielded. *)
Definition telemetryBeforeYield {R} (es : list (Effect R)) : Prop :=
  ∀ i action, es !! i = Some (Telemetry action) → ∃ r, es !! S i = Some (Yielded r).

(** What a hover says and where, its alerts apart. *)
Definition hoverIdentity (h : Hover) : string * option Range :=
  (contents h, hover_range h).

(** Where a location points, its badge apart. *)
Definition locationIdentity (l : Location) : URL * option Range :=
  (uri l, range l).

(** The hover values the hover composer forwards: the precise hover text if
    there is one, the non-null values of the protocol backend if it is
    configured, of the heuristic hover backend otherwise. *)
Definition hoverSources (lsifProvider : DefinitionAndHoverProvider)
    (searchHoverProvider : HoverProvider) (lspProvider : option HoverProvider)
    (textDocument : TextDocument) (position : Position) : list Hover :=
  match preciseHover (lsifProvider textDocument position) with
  | Some lsifHover => [lsifHover]
  | None =>
      nonNull (match lspProvider with
               | Some lspProvider => lspProvider textDocument position
               | None => searchHoverProvider textDocument position
               end)
  end.

Section ReregisterHistory.

Context {V : Type} `{EqDecision V}.

(** The snapshots of a history that differ from the snapshot right before them
    in a tracked field; [before] is the snapshot before the first. *)
Fixpoint triggering (fields : list string) (before : gmap string V)
    (history : list (gmap string V)) : list (gmap string V) :=
  match history with
  | [] => []
  | value :: rest =>
      if sameFields fields before value
      then triggering fields value rest
      else value :: triggering fields value rest
  end.

End ReregisterHistory.

(** ** [createProviderWrapper] of [src/shared/providers.ts] *)

Module Providers.
(** The interface [Providers]: what [createSearchProviders] returns. *)
Record t := {
  definition : DefinitionProvider;
  references : ReferencesProvider;
  hover : HoverProvider;
  documentHighlights : DocumentHighlightProvider
}.
End Providers.

Module CombinedProviders.
(** The interface [CombinedProviders]: what [createLSIFProviders] returns. *)
Record t := {
  definitionAndHover : DefinitionAndHoverProvider;
  references : ReferencesProvider;
  documentHighlights : DocumentHighlightProvider
}.
End CombinedProviders.

Module SourcegraphProviders.
(** [Partial<SourcegraphProviders>]: the composed providers, each a generator
    function of the query, any of them possibly not set yet. *)
Record t := {
  definition : option (TextDocument → Position → Gen DefinitionResult unit);
  references :
    option (TextDocument → Position → ReferenceContext → Gen (option (list Location)) unit);
  hover : option (TextDocument → Position → Gen Hover unit);
  documentHighlights :
    option (TextDocument → Position → Gen (option (list DocumentHighlight)) unit)
}.

(** [const wrapped: Partial<SourcegraphProviders> = {}] *)
Definition empty : t :=
  {| definition := None; references := None; hover := None; documentHighlights := None |}.
End SourcegraphProviders.

Section ProviderWrapper.

(** [impreciseBadge] and the alert constants, as for the composers; the
    results of [createLSIFProviders] and [createSearchProviders], which are not
    in src/; and [languageSpec.lsifSupport], an optional field. *)
Variable impreciseBadge : BadgeAttachmentRenderOptions.
Variable alertConstants : HoverAlerts.t.
Variable lsifProviders : CombinedProviders.t.
Variable searchProviders : Providers.t.
Variable lsifSupport : option LSIFSupport.t.

(** The four functions of the wrapper [createProviderWrapper] returns. Each
    builds the composed provider, stores it in [wrapped] and returns it: the
    result is the provider and [wrapped] afterwards. *)
Definition wrapDefinition (lspProvider : option DefinitionProvider)
    (wrapped : SourcegraphProviders.t) :=
  let provider :=
    createDefinitionProvider impreciseBadge
      (CombinedProviders.definitionAndHover lsifProviders)
      (Providers.definition searchProviders) lspProvider in
  (provider,
   {| SourcegraphProviders.definition := Some provider;
      SourcegraphProviders.references := SourcegraphProviders.references wrapped;
      SourcegraphProviders.hover := SourcegraphProviders.hover wrapped;
      SourcegraphProviders.documentHighlights :=
        SourcegraphProviders.documentHighlights wrapped |}).

Definition wrapReferences (lspProvider : option ReferencesProvider)
    (wrapped : SourcegraphProviders.t) :=
  let provider :=
    createReferencesProvider impreciseBadge
      (CombinedProviders.references lsifProviders)
      (Providers.references searchProviders) lspProvider in
  (provider,
   {| SourcegraphProviders.definition := SourcegraphProviders.definition wrapped;
      SourcegraphProviders.references := Some provider;
      SourcegraphProviders.hover := SourcegraphProviders.hover wrapped;
      SourcegraphProviders.documentHighlights :=
        SourcegraphProviders.documentHighlights wrapped |}).

Definition wrapHover (lspProvider : option HoverProvider)
    (wrapped : SourcegraphProviders.t) :=
  let provider :=
    createHoverProvider alertConstants
      (default LSIFSupport.None lsifSupport)   (* lsifSupport || LSIFSupport.None *)
      (CombinedProviders.definitionAndHover lsifProviders)
      (Providers.definition searchProviders)
      (Providers.hover searchProviders) lspProvider in
  (provider,
   {| SourcegraphProviders.definition := SourcegraphProviders.definition wrapped;
      SourcegraphProviders.references := SourcegraphProviders.references wrapped;
      SourcegraphProviders.hover := Some provider;
      SourcegraphProviders.documentHighlights :=
        SourcegraphProviders.documentHighlights wrapped |}).

Definition wrapDocumentHighlights (lspProvider : option DocumentHighlightProvider)
    (wrapped : SourcegraphProviders.t) :=
  let provider :=
    createDocumentHighlightProvider
      (CombinedProviders.documentHighlights lsifProviders)
      (Providers.documentHighlights searchProviders) lspProvider in
  (provider,
   {| SourcegraphProviders.definition := SourcegraphProviders.definition wrapped;
      SourcegraphProviders.references := SourcegraphProviders.references wrapped;
      SourcegraphProviders.hover := SourcegraphProviders.hover wrapped;
      SourcegraphProviders.documentHighlights := Some provider |}).

(** A use of the wrapper: one of its functions called with an optional
    protocol provider. *)
Inductive WrapperCall :=
  | WrapDefinition (lspProvider : option DefinitionProvider)
  | WrapReferences (lspProvider : option ReferencesProvider)
  | WrapHover (lspProvider : option HoverProvider)
  | WrapDocumentHighlights (lspProvider : option DocumentHighlightProvider).

(** [wrapped] after a call. *)
Definition afterCall (wrapped : SourcegraphProviders.t) (call : WrapperCall)
    : SourcegraphProviders.t :=
  match call with
  | WrapDefinition lspProvider => (wrapDefinition lspProvider wrapped).2
  | WrapReferences lspProvider => (wrapReferences lspProvider wrapped).2
  | WrapHover lspProvider => (wrapHover lspProvider wrapped).2
  | WrapDocumentHighlights lspProvider => (wrapDocumentHighlights lspProvider wrapped).2
  end.

(** [wrapped] after a sequence of calls on a new wrapper. *)
Definition afterCalls (calls : list WrapperCall) : SourcegraphProviders.t :=
  foldl afterCall SourcegraphProviders.empty calls.

(** The protocol providers the calls of each kind were made with, in order. *)
Definition definitionCalls (calls : list WrapperCall) : list (option DefinitionProvider) :=
  omap (λ call, match call with WrapDefinition lsp => Some lsp | _ => None end) calls.

Definition referencesCalls (calls : list WrapperCall) : list (option ReferencesProvider) :=
  omap (λ call, match call with WrapReferences lsp => Some lsp | _ => None end) calls.

Definition hoverCalls (calls : list WrapperCall) : list (option HoverProvider) :=
  omap (λ call, match call with WrapHover lsp => Some lsp | _ => None end) calls.

Definition documentHighlightsCalls (calls : list WrapperCall)
    : list (option DocumentHighlightProvider) :=
  omap (λ call, match call with WrapDocumentHighlights lsp => Some lsp | _ => None end)
       calls.

End ProviderWrapper.

(** ** Properties of the generator monad *)

Section GenFacts.

Context {R : Type}.

Lemma yields_app (es1 es2 : list (Effect R)) :
  yields (es1 ++ es2) = yields es1 ++ yields es2.
Proof. apply omap_app. Qed.

Lemma telemetry_app (es1 es2 : list (Effect R)) :
  telemetry (es1 ++ es2) = telemetry es1 ++ telemetry es2.
Proof. apply omap_app. Qed.

Lemma invoked_app (es1 es2 : list (Effect R)) :
  invoked (es1 ++ es2) = invoked es1 ++ invoked es2.
Proof. apply omap_app. Qed.

Lemma fire_idem action e : fire action (fire action e) = fire action e.
Proof.
  unfold fire, TelemetryEmitter.emitOnce.
  destruct (decide (action ∈ TelemetryEmitter.emitted e)) as [Hin|Hin]; simpl.
  - rewrite decide_True by done. done.
  - rewrite decide_True by set_solver. done.
Qed.

Lemma hasFired_fire action e : hasFired action (fire action e) = true.
Proof.
  unfold hasFired, fire, TelemetryEmitter.emitOnce.
  destruct (decide (action ∈ TelemetryEmitter.emitted e)); simpl;
    apply bool_decide_eq_true; set_solver.
Qed.

Lemma hasFired_fire_ne action action' e :
  action ≠ action' → hasFired action (fire action' e) = hasFired action e.
Proof.
  intros Hne. unfold hasFired, fire, TelemetryEmitter.emitOnce.
  destruct (decide (action' ∈ TelemetryEmitter.emitted e)); simpl; [done|].
  apply bool_decide_ext. rewrite elem_of_union, elem_of_singleton.
  split; [intros [->|?]; done | auto].
Qed.

Lemma hasFired_new action : hasFired action TelemetryEmitter.new = false.
Proof. apply bool_decide_eq_false. set_solver. Qed.

Lemma emitOnce_run action (s : GenState R) :
  emitOnce action s =
    (tt, {| emitter := fire action (emitter s);
            effects := effects s ++
                       (if hasFired action (emitter s) then [] else [Telemetry action]) |}).
Proof.
  unfold emitOnce, fire, hasFired, TelemetryEmitter.emitOnce.
  destruct (decide (action ∈ TelemetryEmitter.emitted (emitter s))) as [Hin|Hin]; simpl.
  - by rewrite bool_decide_eq_true_2.
  - by rewrite bool_decide_eq_false_2.
Qed.

Lemma bind_run {A B} (m : Gen R A) (f : A → Gen R B) s :
  (m ≫= f) s = f (m s).1 (m s).2.
Proof. unfold mbind, Gen_bind. by destruct (m s). Qed.

Lemma mret_run {A} (x : A) (s : GenState R) : mret (M:=Gen R) x s = (x, s).
Proof. done. Qed.

Lemma yield_run (r : R) s :
  yield r s = (tt, {| emitter := emitter s; effects := effects s ++ [Yielded r] |}).
Proof. done. Qed.

Lemma newTelemetryEmitter_run (s : GenState R) :
  newTelemetryEmitter s = (tt, {| emitter := TelemetryEmitter.new; effects := effects s |}).
Proof. done. Qed.

Lemma invoke_run {A} backend (result : A) (s : GenState R) :
  invoke backend result s =
    (result, {| emitter := emitter s; effects := effects s ++ [Invoked backend] |}).
Proof. done. Qed.

Lemma yields_Yielded (rs : list R) : yields (Yielded <$> rs) = rs.
Proof. unfold yields. induction rs as [|r rs IH]; [done|]. cbn. by f_equal. Qed.

Lemma telemetry_Yielded (rs : list R) : telemetry (R:=R) (Yielded <$> rs) = [].
Proof. by induction rs. Qed.

Lemma invoked_Yielded (rs : list R) : invoked (R:=R) (Yielded <$> rs) = [].
Proof. by induction rs. Qed.

Context {X Acc : Type}.

Lemma forAwait_ext (body body' : Acc → X → Gen R Acc) xs acc s :
  (∀ acc x s, body acc x s = body' acc x s) →
  forAwait xs acc body s = forAwait xs acc body' s.
Proof.
  intros Hext. revert acc s.
  induction xs as [|x xs IH]; intros acc s; simpl; [done|].
  unfold mbind, Gen_bind. rewrite Hext. destruct (body' acc x s). apply IH.
Qed.

Variables (action : string) (emits : X → bool)
          (out : Acc → X → option R) (next : Acc → X → Acc).

Lemma forAwait_loopBody xs acc (s : GenState R) :
  forAwait xs acc (loopBody action emits out next) s =
    (foldl next acc xs,
     {| emitter := if existsb emits xs then fire action (emitter s) else emitter s;
        effects := effects s ++
                   loopEffects action emits out next (hasFired action (emitter s)) acc xs |}).
Proof.
  revert acc s.
  induction xs as [|x xs IH]; intros acc [e es]; simpl.
  - by rewrite app_nil_r.
  - unfold mbind, Gen_bind, loopBody, mbind, Gen_bind, mret, Gen_ret.
    destruct (emits x) eqn:Hemits; simpl.
    + rewrite emitOnce_run. simpl.
      destruct (out acc x) as [r|]; simpl; rewrite IH; simpl;
        rewrite hasFired_fire, fire_idem, orb_true_r;
        destruct (existsb emits xs), (hasFired action e); simpl;
        by rewrite <- ?app_assoc.
    + destruct (out acc x) as [r|]; simpl; rewrite IH; simpl;
        rewrite orb_false_r; by rewrite <- ?app_assoc.
Qed.

Lemma yields_loopEffects fired acc xs :
  yields (loopEffects action emits out next fired acc xs) = loopYields out next acc xs.
Proof.
  revert fired acc.
  induction xs as [|x xs IH]; intros fired acc; simpl; [done|].
  rewrite !yields_app, IH.
  destruct (emits x && negb fired), (out acc x); done.
Qed.

Lemma telemetry_loopEffects fired acc xs :
  telemetry (loopEffects action emits out next fired acc xs) =
    if negb fired && existsb emits xs then [action] else [].
Proof.
  revert fired acc.
  induction xs as [|x xs IH]; intros fired acc; simpl.
  - by rewrite andb_false_r.
  - rewrite !telemetry_app, IH.
    destruct (emits x), fired, (out acc x), (existsb emits xs); done.
Qed.

Lemma loopEffects_fired acc xs :
  loopEffects action emits out next true acc xs = Yielded <$> loopYields out next acc xs.
Proof.
  revert acc.
  induction xs as [|x xs IH]; intros acc; simpl; [done|].
  rewrite andb_false_r, fmap_app, IH. simpl. by destruct (out acc x).
Qed.

Lemma loopYields_total (f : X → R) acc xs :
  loopYields (λ _ x, Some (f x)) next acc xs = f <$> xs.
Proof.
  revert acc. induction xs as [|x xs IH]; intros acc; simpl; [done|]. by rewrite IH.
Qed.

Lemma loopYields_filter (keep : X → bool) (f : X → R) acc xs :
  loopYields (λ _ x, if keep x then Some (f x) else None) next acc xs =
    f <$> filter (λ x, keep x) xs.
Proof.
  revert acc. induction xs as [|x xs IH]; intros acc; simpl; [done|].
  rewrite IH, filter_cons. by destruct (keep x).
Qed.

Lemma loopYields_filter_fmap {Y} (h : X → Y) (keep : Y → bool) (f : Y → R) acc xs :
  loopYields (λ _ x, if keep (h x) then Some (f (h x)) else None) next acc xs =
    f <$> filter (λ y, keep y) (h <$> xs).
Proof.
  revert acc. induction xs as [|x xs IH]; intros acc; simpl; [done|].
  rewrite IH, filter_cons. by destruct (keep (h x)).
Qed.

(** Whenever the loop logs its event, the next thing it does is to yield the
    value of an element for which [emits] holds. *)
Lemma loopEffects_telemetry_then_yield (g : X → R) fired acc xs i a :
  (∀ acc x, emits x = true → out acc x = Some (g x)) →
  loopEffects action emits out next fired acc xs !! i = Some (Telemetry a) →
  ∃ x, x ∈ xs ∧ emits x = true ∧
       loopEffects action emits out next fired acc xs !! S i = Some (Yielded (g x)).
Proof.
  intros Hout. revert fired acc i.
  induction xs as [|x xs IH]; intros fired acc i; simpl; [done|].
  destruct (emits x) eqn:Hemits; simpl.
  - rewrite (Hout _ _ Hemits). destruct fired; simpl.
    + destruct i as [|i]; simpl; [done|]. intros Hi.
      destruct (IH _ _ _ Hi) as (y & Hy & Hey & Hnext).
      exists y. split_and!; [by right|done|done].
    + destruct i as [|[|i]]; simpl; [|done|].
      * intros _. exists x. split_and!; [by left|done|done].
      * intros Hi. destruct (IH _ _ _ Hi) as (y & Hy & Hey & Hnext).
        exists y. split_and!; [by right|done|done].
  - rewrite orb_false_r. destruct (out acc x) as [r|]; simpl.
    + destruct i as [|i]; simpl; [done|]. intros Hi.
      destruct (IH _ _ _ Hi) as (y & Hy & Hey & Hnext).
      exists y. split_and!; [by right|done|done].
    + intros Hi. destruct (IH _ _ _ Hi) as (y & Hy & Hey & Hnext).
      exists y. split_and!; [by right|done|done].
Qed.

Lemma invoked_loopEffects fired acc xs :
  invoked (loopEffects action emits out next fired acc xs) = [].
Proof.
  revert fired acc.
  induction xs as [|x xs IH]; intros fired acc; simpl; [done|].
  rewrite !invoked_app, IH.
  destruct (emits x && negb fired), (out acc x); done.
Qed.

End GenFacts.

Lemma length_zero_nonEmpty {T} (l : list T) :
  bool_decide (length l = 0) = negb (nonEmpty (Array l)).
Proof. by destruct l. Qed.

Lemma nonEmpty_asArray_ofBatch {T} (batch : option (list T)) :
  nonEmpty (Array (asArray (ofBatch batch))) = nonEmpty (ofBatch batch).
Proof. by destruct batch. Qed.

Create Rewrite HintDb gen.

#[local] Hint Rewrite @bind_run @mret_run @yield_run @invoke_run : gen.

(** Shows that a loop body of the code is [loopBody] for the given parameters. *)
Ltac solve_loop_ext :=
  intros ? ? ?; unfold loopBody, lsifResultsStep, uncovered, hoverOut, hoverNext, emitOnce;
  rewrite ?length_zero_nonEmpty, ?nonEmpty_asArray_ofBatch;
  autorewrite with gen; simpl;
  repeat (case_match; simpl in *; autorewrite with gen; simpl);
  congruence.

Ltac loop_closed_form action emits out next :=
  rewrite (forAwait_ext _ (loopBody action emits out next)) by solve_loop_ext;
  rewrite forAwait_loopBody.

(** ** The definition composer *)

Section DefinitionFacts.

Variable impreciseBadge : BadgeAttachmentRenderOptions.
Variables (lsifProvider : DefinitionAndHoverProvider)
          (searchProvider : DefinitionProvider)
          (lspProvider : option DefinitionProvider)
          (textDocument : TextDocument) (position : Position).

(** Everything one invocation of the definition composer does. *)
Lemma createDefinitionProvider_effects :
  runGen (createDefinitionProvider impreciseBadge lsifProvider searchProvider lspProvider
            textDocument position) =
    Invoked LsifBackend ::
    match preciseDefinitions (lsifProvider textDocument position) with
    | (_ :: _) as locations =>
        Telemetry "lsifDefinitions" :: (Yielded ∘ Single <$> locations)
    | [] =>
        match lspProvider with
        | Some lspProvider =>
            Invoked LspBackend ::
            loopEffects "lspDefinitions" nonEmpty (λ _ r, Some r) (λ _ _, tt)
              false tt (lspProvider textDocument position)
        | None =>
            Invoked SearchBackend ::
            loopEffects "searchDefinitions" nonEmpty
              (λ _ r, Some (badgeValues r impreciseBadge)) (λ _ _, tt)
              false tt (searchProvider textDocument position)
        end
    end.
Proof.
  assert (Hfallback : ∀ s : GenState DefinitionResult,
    emitter s = TelemetryEmitter.new →
    effects (match lspProvider with
      | Some lspProvider =>
          lspResults ← invoke LspBackend (lspProvider textDocument position);
          forAwait lspResults tt (λ _ lspResult,
            (if nonEmpty lspResult then emitOnce "lspDefinitions" else mret tt);;
            yield lspResult)
      | None =>
          searchResults ← invoke SearchBackend (searchProvider textDocument position);
          forAwait searchResults tt (λ _ searchResult,
            (if nonEmpty searchResult then emitOnce "searchDefinitions" else mret tt);;
            yield (badgeValues searchResult impreciseBadge))
      end s).2 =
    effects s ++
    match lspProvider with
    | Some lspProvider =>
        Invoked LspBackend ::
        loopEffects "lspDefinitions" nonEmpty (λ _ r, Some r) (λ _ _, tt)
          false tt (lspProvider textDocument position)
    | None =>
        Invoked SearchBackend ::
        loopEffects "searchDefinitions" nonEmpty
          (λ _ r, Some (badgeValues r impreciseBadge)) (λ _ _, tt)
          false tt (searchProvider textDocument position)
    end).
  { intros s Hs. destruct lspProvider as [lsp|]; autorewrite with gen; simpl.
    - loop_closed_form "lspDefinitions" (nonEmpty (T:=Location))
        (λ (_ : ()) (r : DefinitionResult), Some r) (λ (_ : ()) (_ : DefinitionResult), tt).
      simpl. rewrite Hs, hasFired_new. by rewrite <- app_assoc.
    - loop_closed_form "searchDefinitions" (nonEmpty (T:=Location))
        (λ (_ : ()) (r : DefinitionResult), Some (badgeValues r impreciseBadge))
        (λ (_ : ()) (_ : DefinitionResult), tt).
      simpl. rewrite Hs, hasFired_new. by rewrite <- app_assoc. }
  unfold runGen, runGenFrom, createDefinitionProvider, preciseDefinitions.
  rewrite bind_run, newTelemetryEmitter_run, bind_run, invoke_run. simpl.
  destruct (lsifProvider textDocument position) as [lsifWrapper|]; simpl.
  - rewrite bind_run.
    loop_closed_form "lsifDefinitions" (λ _ : Location, true)
      (λ (_ : bool) (r : Location), Some (Single r)) (λ (_ : bool) (_ : Location), true).
    simpl.
    destruct (asArray (orEmptyArray (definition lsifWrapper))) as [|l ls]; simpl.
    + by rewrite Hfallback.
    + replace (foldl (λ (_ : bool) (_ : Location), true) true ls) with true
        by (clear; induction ls; done).
      rewrite hasFired_new, loopEffects_fired. simpl.
      by rewrite loopYields_total, <- list_fmap_compose.
  - rewrite bind_run, mret_run. simpl. by rewrite Hfallback.
Qed.

End DefinitionFacts.

(** ** The references composer *)

Section ReferencesFacts.

Variable impreciseBadge : BadgeAttachmentRenderOptions.
Variables (lsifProvider searchProvider : ReferencesProvider)
          (lspProvider : option ReferencesProvider)
          (textDocument : TextDocument) (position : Position)
          (context : ReferenceContext).

Lemma hasFired_after_loop action action' (fired : bool) :
  action ≠ action' →
  hasFired action (if fired then fire action' TelemetryEmitter.new
                   else TelemetryEmitter.new) = false.
Proof.
  intros Hne. destruct fired; [rewrite hasFired_fire_ne by done|]; apply hasFired_new.
Qed.

(** Everything one invocation of the references composer does. *)
Lemma createReferencesProvider_effects :
  runGen (createReferencesProvider impreciseBadge lsifProvider searchProvider lspProvider
            textDocument position context) =
    let lsifBatches := lsifProvider textDocument position context in
    let lsifResults := lsifResultsAfter [] lsifBatches in
    Invoked LsifBackend ::
    loopEffects "lsifReferences" (λ b, nonEmpty (ofBatch b))
      (λ _ b, if nonEmpty (ofBatch b) then Some b else None)
      lsifResultsStep false [] lsifBatches ++
    match lspProvider with
    | Some lspProvider =>
        Invoked LspBackend ::
        loopEffects "lspReferences" (λ b, nonEmpty (ofBatch b))
          (λ _ b, if nonEmpty (ofBatch b)
                  then Some (Some (lsifResults ++ asArray (ofBatch b))) else None)
          (λ _ _, tt) false tt (lspProvider textDocument position context)
    | None =>
        Invoked SearchBackend ::
        loopEffects "searchReferences"
          (λ b, nonEmpty (Array (uncovered lsifResults b)))
          (λ _ b, if nonEmpty (Array (uncovered lsifResults b))
                  then Some (Some (lsifResults ++
                                   (withBadge impreciseBadge <$> uncovered lsifResults b)))
                  else None)
          (λ _ _, tt) false tt (searchProvider textDocument position context)
    end.
Proof.
  unfold runGen, runGenFrom, createReferencesProvider.
  rewrite bind_run, newTelemetryEmitter_run, bind_run, invoke_run, bind_run. simpl.
  loop_closed_form "lsifReferences"
    (λ b : option (list Location), nonEmpty (ofBatch b))
    (λ (_ : list Location) (b : option (list Location)),
       if nonEmpty (ofBatch b) then Some b else None)
    lsifResultsStep.
  simpl. rewrite hasFired_new. fold (lsifResultsAfter [] (lsifProvider textDocument position context)).
  set (lsifResults := lsifResultsAfter [] _).
  destruct lspProvider as [lsp|]; rewrite bind_run, invoke_run; simpl.
  - loop_closed_form "lspReferences"
      (λ b : option (list Location), nonEmpty (ofBatch b))
      (λ (_ : ()) (b : option (list Location)),
         if nonEmpty (ofBatch b)
         then Some (Some (lsifResults ++ asArray (ofBatch b))) else None)
      (λ (_ : ()) (_ : option (list Location)), tt).
    simpl. rewrite hasFired_after_loop by done. by rewrite <- app_assoc.
  - loop_closed_form "searchReferences"
      (λ b : option (list Location), nonEmpty (Array (uncovered lsifResults b)))
      (λ (_ : ()) (b : option (list Location)),
         if nonEmpty (Array (uncovered lsifResults b))
         then Some (Some (lsifResults ++
                          (withBadge impreciseBadge <$> uncovered lsifResults b)))
         else None)
      (λ (_ : ()) (_ : option (list Location)), tt).
    simpl. rewrite hasFired_after_loop by done. by rewrite <- app_assoc.
Qed.

End ReferencesFacts.

(** ** The hover composer *)

Section HoverFacts.

Variable alertConstants : HoverAlerts.t.
Variables (lsifSupport : LSIFSupport.t)
          (lsifProvider : DefinitionAndHoverProvider)
          (searchDefinitionProvider : DefinitionProvider)
          (searchHoverProvider : HoverProvider)
          (lspProvider : option HoverProvider)
          (textDocument : TextDocument) (position : Position).

(** The probe of the heuristic definition backend stops at the first
    non-empty value and has no effect of its own. *)
Lemma probe_run (searchResults : list DefinitionResult) acc (s : GenState Hover) :
  forAwaitBreak searchResults acc (λ partialPreciseData searchResult,
    if nonEmpty searchResult
    then mret (true, Break)
    else mret (partialPreciseData, Continue)) s =
  (if existsb nonEmpty searchResults then true else acc, s).
Proof.
  revert acc. induction searchResults as [|r rs IH]; intros acc; simpl; [done|].
  rewrite bind_run. destruct (nonEmpty r); simpl; [done|]. apply IH.
Qed.

Lemma hoverWithoutPreciseHover_effects hasPreciseDefinition (s : GenState Hover) :
  emitter s = TelemetryEmitter.new →
  effects (hoverWithoutPreciseHover alertConstants
             (searchAlerts alertConstants lsifSupport) searchHoverProvider lspProvider
             textDocument position hasPreciseDefinition s).2 =
    effects s ++ fallThroughEffects alertConstants lsifSupport searchHoverProvider
                   lspProvider textDocument position hasPreciseDefinition.
Proof.
  intros Hs. unfold hoverWithoutPreciseHover, fallThroughEffects.
  destruct lspProvider as [lsp|]; rewrite bind_run, invoke_run, bind_run; simpl.
  - loop_closed_form "lspHover" (λ r : option Hover, bool_decide (is_Some r))
      hoverOut hoverNext.
    simpl. rewrite Hs, hasFired_new. by rewrite <- app_assoc.
  - loop_closed_form "searchHover" (λ r : option Hover, bool_decide (is_Some r))
      hoverOut hoverNext.
    simpl. rewrite Hs, hasFired_new. by rewrite <- app_assoc.
Qed.

(** Everything one invocation of the hover composer does. *)
Lemma createHoverProvider_effects :
  runGen (createHoverProvider alertConstants lsifSupport lsifProvider
            searchDefinitionProvider searchHoverProvider lspProvider
            textDocument position) =
    Invoked LsifBackend ::
    match lsifProvider textDocument position with
    | Some lsifWrapper =>
        match hover lsifWrapper with
        | Some lsifHover =>
            if nonEmpty (definition lsifWrapper) then
              [Telemetry "lsifHover";
               Yielded (withAlerts [HoverAlerts.lsif alertConstants] lsifHover)]
            else
              [Invoked SearchDefinitionBackend;
               Telemetry "lsifHover";
               Yielded (withAlerts
                 [if existsb nonEmpty (searchDefinitionProvider textDocument position)
                  then HoverAlerts.lsifPartialHoverOnly alertConstants
                  else HoverAlerts.lsif alertConstants] lsifHover)]
        | None =>
            fallThroughEffects alertConstants lsifSupport searchHoverProvider
              lspProvider textDocument position (nonEmpty (definition lsifWrapper))
        end
    | None =>
        fallThroughEffects alertConstants lsifSupport searchHoverProvider
          lspProvider textDocument position false
    end.
Proof.
  unfold runGen, runGenFrom, createHoverProvider.
  rewrite bind_run, newTelemetryEmitter_run, bind_run, invoke_run. simpl.
  destruct (lsifProvider textDocument position) as [lsifWrapper|]; simpl;
    [destruct (hover lsifWrapper) as [lsifHover|]|];
    try by rewrite hoverWithoutPreciseHover_effects.
  rewrite bind_run. destruct (nonEmpty (definition lsifWrapper)); simpl.
  - rewrite bind_run, emitOnce_run. simpl. by rewrite hasFired_new.
  - rewrite !bind_run, invoke_run. simpl. rewrite probe_run. simpl.
    rewrite emitOnce_run. simpl. rewrite hasFired_new. simpl.
    by destruct (existsb nonEmpty (searchDefinitionProvider textDocument position)).
Qed.

End HoverFacts.

(** ** The document-highlight composer *)

Section DocumentHighlightFacts.

Variables (lsifProvider searchProvider : DocumentHighlightProvider)
          (lspProvider : option DocumentHighlightProvider)
          (textDocument : TextDocument) (position : Position).

(** Everything one invocation of the document-highlight composer does. *)
Lemma createDocumentHighlightProvider_effects :
  runGen (createDocumentHighlightProvider lsifProvider searchProvider lspProvider
            textDocument position) =
    Invoked LsifBackend ::
    loopEffects "lsifDocumentHighlight" (λ r, bool_decide (is_Some r))
      (λ _ r, if bool_decide (is_Some r) then Some r else None) (λ _ _, tt)
      false tt (lsifProvider textDocument position).
Proof.
  unfold runGen, runGenFrom, createDocumentHighlightProvider.
  rewrite bind_run, newTelemetryEmitter_run, bind_run, invoke_run. simpl.
  loop_closed_form "lsifDocumentHighlight"
    (λ r : option (list DocumentHighlight), bool_decide (is_Some r))
    (λ (_ : ()) (r : option (list DocumentHighlight)),
       if bool_decide (is_Some r) then Some r else None)
    (λ (_ : ()) (_ : option (list DocumentHighlight)), tt).
  simpl. by rewrite hasFired_new.
Qed.

End DocumentHighlightFacts.

(** ** The value of [lsifResults] and what the references composer yields *)

Lemma nonEmpty_Array_iff {T} (l : list T) : nonEmpty (Array l) ↔ l ≠ [].
Proof. by destruct l. Qed.

Lemma nonEmpty_ofBatch_iff {T} (batch : option (list T)) :
  nonEmpty (ofBatch batch) ↔ asArray (ofBatch batch) ≠ [].
Proof. destruct batch as [l|]; simpl; [apply nonEmpty_Array_iff|]. by split. Qed.

Lemma lsifResultsAfter_last lsifResults batches :
  lsifResultsAfter lsifResults batches =
    default lsifResults
      (last (filter (λ batch, batch ≠ []) ((λ b, asArray (ofBatch b)) <$> batches))).
Proof.
  revert lsifResults. unfold lsifResultsAfter.
  induction batches as [|b bs IH]; intros lsifResults; simpl; [done|].
  rewrite IH, filter_cons. unfold lsifResultsStep.
  destruct (nonEmpty (ofBatch b)) eqn:Hb.
  - rewrite decide_True by (apply nonEmpty_ofBatch_iff; by rewrite Hb).
    rewrite last_cons. by destruct (last _).
  - rewrite decide_False; [done|].
    intros Hne%nonEmpty_ofBatch_iff. by rewrite Hb in Hne.
Qed.

(** After the precise loop, [lsifResults] is the most recent non-empty batch. *)
Lemma lsifResultsAfter_lastNonEmptyBatch batches :
  lsifResultsAfter [] batches = lastNonEmptyBatch batches.
Proof. apply lsifResultsAfter_last. Qed.

Lemma lastNonEmptyBatch_decompose earlier latest later :
  latest ≠ [] →
  Forall (λ batch, nonEmpty (ofBatch batch) = false) later →
  lastNonEmptyBatch (earlier ++ [Some latest] ++ later) = latest.
Proof.
  intros Hlatest Hlater. unfold lastNonEmptyBatch.
  rewrite !fmap_app, !filter_app. simpl.
  rewrite filter_cons, decide_True, filter_nil by done.
  replace (filter _ (_ <$> later)) with (@nil (list Location)).
  - by rewrite app_nil_r, last_snoc.
  - symmetry. induction Hlater as [|b bs Hb _ IH]; simpl; [done|].
    rewrite filter_cons, decide_False; [done|].
    intros Hne%nonEmpty_ofBatch_iff. by rewrite Hb in Hne.
Qed.

(** The code's filter, through the set [lsifFiles], is the filter on lists. *)
Lemma uncovered_outsideFilesOf precise batch :
  uncovered precise batch = outsideFilesOf precise batch.
Proof.
  unfold uncovered, outsideFilesOf. apply list_filter_iff. intros location.
  by rewrite elem_of_list_to_set.
Qed.

Lemma filter_nonEmpty_Array {T} (ls : list (list T)) :
  filter (λ l, nonEmpty (Array l)) ls = filter (λ l, l ≠ []) ls.
Proof. apply list_filter_iff. intros l. apply nonEmpty_Array_iff. Qed.

Lemma existsb_uncovered precise batches :
  existsb (λ b, nonEmpty (Array (uncovered precise b))) batches =
  existsb (λ b, nonEmpty (Array (outsideFilesOf precise b))) batches.
Proof.
  induction batches as [|b bs IH]; [done|].
  cbn [existsb]. by rewrite IH, uncovered_outsideFilesOf.
Qed.

(** The values one invocation of the references composer yields. *)
Lemma createReferencesProvider_yields
    (impreciseBadge : BadgeAttachmentRenderOptions)
    (lsifProvider searchProvider : ReferencesProvider)
    (lspProvider : option ReferencesProvider)
    (textDocument : TextDocument) (position : Position) (context : ReferenceContext) :
  let precise := lastNonEmptyBatch (lsifProvider textDocument position context) in
  yields (runGen (createReferencesProvider impreciseBadge lsifProvider searchProvider
                    lspProvider textDocument position context)) =
    nonEmptyBatches (lsifProvider textDocument position context) ++
    match lspProvider with
    | Some lspProvider =>
        (λ batch, Some (precise ++ asArray (ofBatch batch))) <$>
          nonEmptyBatches (lspProvider textDocument position context)
    | None =>
        (λ kept, Some (precise ++ (withBadge impreciseBadge <$> kept))) <$>
          filter (λ kept, kept ≠ [])
            (outsideFilesOf precise <$> searchProvider textDocument position context)
    end.
Proof.
  intros precise. rewrite createReferencesProvider_effects. cbv zeta.
  rewrite lsifResultsAfter_lastNonEmptyBatch. fold precise.
  change (yields (Invoked LsifBackend :: ?t)) with (yields t).
  rewrite yields_app, yields_loopEffects. f_equal.
  - etrans; [apply (loopYields_filter lsifResultsStep
                      (λ b : option (list Location), nonEmpty (ofBatch b)) id)|].
    by rewrite list_fmap_id.
  - destruct lspProvider as [lsp|].
    + change (yields (Invoked LspBackend :: ?t)) with (yields t).
      rewrite yields_loopEffects.
      apply (loopYields_filter (λ _ _, tt)
               (λ b : option (list Location), nonEmpty (ofBatch b))
               (λ b, Some (precise ++ asArray (ofBatch b)))).
    + change (yields (Invoked SearchBackend :: ?t)) with (yields t).
      rewrite yields_loopEffects.
      etrans; [apply (loopYields_filter_fmap (λ _ _, tt) (uncovered precise)
                        (λ kept, nonEmpty (Array kept))
                        (λ kept, Some (precise ++ (withBadge impreciseBadge <$> kept))))|].
      rewrite filter_nonEmpty_Array. do 2 f_equal.
      apply list_fmap_ext. intros _ b _. apply uncovered_outsideFilesOf.
Qed.

(** The events logged and the backends called by the references composer. *)
Lemma createReferencesProvider_telemetry_invoked
    (impreciseBadge : BadgeAttachmentRenderOptions)
    (lsifProvider searchProvider : ReferencesProvider)
    (lspProvider : option ReferencesProvider)
    (textDocument : TextDocument) (position : Position) (context : ReferenceContext) :
  let precise := lastNonEmptyBatch (lsifProvider textDocument position context) in
  let es := runGen (createReferencesProvider impreciseBadge lsifProvider searchProvider
                      lspProvider textDocument position context) in
  telemetry es =
    (if existsb (λ b, nonEmpty (ofBatch b)) (lsifProvider textDocument position context)
     then ["lsifReferences"] else []) ++
    match lspProvider with
    | Some lspProvider =>
        if existsb (λ b, nonEmpty (ofBatch b)) (lspProvider textDocument position context)
        then ["lspReferences"] else []
    | None =>
        if existsb (λ b, nonEmpty (Array (outsideFilesOf precise b)))
             (searchProvider textDocument position context)
        then ["searchReferences"] else []
    end ∧
  invoked es =
    [LsifBackend; match lspProvider with Some _ => LspBackend | None => SearchBackend end].
Proof.
  intros precise es. subst es. rewrite createReferencesProvider_effects. cbv zeta.
  rewrite lsifResultsAfter_lastNonEmptyBatch. fold precise. split.
  - change (telemetry (Invoked LsifBackend :: ?t)) with (telemetry t).
    rewrite telemetry_app, telemetry_loopEffects. f_equal.
    destruct lspProvider as [lsp|].
    + change (telemetry (Invoked LspBackend :: ?t)) with (telemetry t).
      by rewrite telemetry_loopEffects.
    + change (telemetry (Invoked SearchBackend :: ?t)) with (telemetry t).
      by rewrite telemetry_loopEffects, existsb_uncovered.
  - change (invoked (Invoked LsifBackend :: ?t)) with (LsifBackend :: invoked t).
    rewrite invoked_app, invoked_loopEffects. simpl. f_equal.
    destruct lspProvider as [lsp|].
    + change (invoked (Invoked LspBackend :: ?t)) with (LspBackend :: invoked t).
      by rewrite invoked_loopEffects.
    + change (invoked (Invoked SearchBackend :: ?t)) with (SearchBackend :: invoked t).
      by rewrite invoked_loopEffects.
Qed.

(** ** The properties of the specification *)

(** C1. For every query to the definition composer, if the precise backend's
    single lookup returns one or more definition locations, the composer yields
    exactly those locations (one per yield, in order), calls the precise
    backend once and neither the protocol (lsp) nor the heuristic (search)
    backend, and logs the precise-definitions event ([lsifDefinitions]) exactly
    once. *)
Theorem definition_precise_result_stops
    (impreciseBadge : BadgeAttachmentRenderOptions)
    (lsifProvider : DefinitionAndHoverProvider) (searchProvider : DefinitionProvider)
    (lspProvider : option DefinitionProvider)
    (textDocument : TextDocument) (position : Position) :
  preciseDefinitions (lsifProvider textDocument position) ≠ [] →
  let es := runGen (createDefinitionProvider impreciseBadge lsifProvider searchProvider
                      lspProvider textDocument position) in
  yields es = Single <$> preciseDefinitions (lsifProvider textDocument position) ∧
  invoked es = [LsifBackend] ∧
  (LspBackend ∉ invoked es) ∧
  (SearchBackend ∉ invoked es) ∧
  telemetry es = ["lsifDefinitions"].
Proof.
  intros Hprecise es. subst es. rewrite createDefinitionProvider_effects.
  destruct (preciseDefinitions (lsifProvider textDocument position)) as [|l ls]; [done|].
  rewrite list_fmap_compose.
  assert (Hinvoked : invoked (R:=DefinitionResult)
            (Invoked LsifBackend :: Telemetry "lsifDefinitions" ::
             (Yielded <$> (Single <$> l :: ls))) = [LsifBackend]).
  { change (invoked (Invoked LsifBackend :: Telemetry "lsifDefinitions" :: ?t))
      with (LsifBackend :: invoked t). by rewrite invoked_Yielded. }
  rewrite Hinvoked. split_and!.
  - change (yields (Invoked LsifBackend :: Telemetry "lsifDefinitions" :: ?t))
      with (yields t). apply yields_Yielded.
  - done.
  - by intros ?%list_elem_of_singleton.
  - by intros ?%list_elem_of_singleton.
  - change (telemetry (Invoked LsifBackend :: Telemetry "lsifDefinitions" :: ?t))
      with ("lsifDefinitions" :: telemetry t). by rewrite telemetry_Yielded.
Qed.

Lemma definition_precise_result_stops_witness :
  preciseDefinitions (Samples.preciseTwoDefinitions Samples.doc Samples.pos) ≠ [] ∧
  let es := runGen (createDefinitionProvider Samples.imprecise
                      Samples.preciseTwoDefinitions Samples.definitionsWithEmpties
                      (Some Samples.definitionsWithEmpties) Samples.doc Samples.pos) in
  yields es = [Single Samples.locA; Single Samples.locB] ∧
  invoked es = [LsifBackend] ∧
  (LspBackend ∉ invoked es) ∧
  (SearchBackend ∉ invoked es) ∧
  telemetry es = ["lsifDefinitions"].
Proof.
  split; [discriminate|].
  apply (definition_precise_result_stops Samples.imprecise
           Samples.preciseTwoDefinitions Samples.definitionsWithEmpties
           (Some Samples.definitionsWithEmpties) Samples.doc Samples.pos).
  discriminate.
Defined.

(** C4. For every query to the definition composer where the precise backend
    returns no definition and a protocol (lsp) backend is configured, every
    value the protocol backend yields is forwarded unchanged, the empty ones
    included; the protocol-definitions event ([lspDefinitions]) is logged only
    for a non-empty value (right before that value is yielded, and once); and
    the heuristic (search) backend is never called. *)
Theorem definition_protocol_forwards_all
    (impreciseBadge : BadgeAttachmentRenderOptions)
    (lsifProvider : DefinitionAndHoverProvider) (searchProvider : DefinitionProvider)
    (lspProvider : DefinitionProvider)
    (textDocument : TextDocument) (position : Position) :
  preciseDefinitions (lsifProvider textDocument position) = [] →
  let es := runGen (createDefinitionProvider impreciseBadge lsifProvider searchProvider
                      (Some lspProvider) textDocument position) in
  yields es = lspProvider textDocument position ∧
  telemetry es =
    (if existsb nonEmpty (lspProvider textDocument position)
     then ["lspDefinitions"] else []) ∧
  (∀ i action, es !! i = Some (Telemetry action) →
     ∃ r, r ∈ lspProvider textDocument position ∧ nonEmpty r = true ∧
          es !! S i = Some (Yielded r)) ∧
  invoked es = [LsifBackend; LspBackend] ∧
  (SearchBackend ∉ invoked es).
Proof.
  intros Hprecise es. subst es.
  rewrite createDefinitionProvider_effects, Hprecise.
  set (loop := loopEffects _ _ _ _ _ _ _).
  assert (Hinvoked : invoked (Invoked LsifBackend :: Invoked LspBackend :: loop)
                     = [LsifBackend; LspBackend]).
  { change (invoked (Invoked LsifBackend :: Invoked LspBackend :: loop))
      with (LsifBackend :: LspBackend :: invoked loop).
    unfold loop. by rewrite invoked_loopEffects. }
  rewrite Hinvoked. split_and!.
  - change (yields (Invoked LsifBackend :: Invoked LspBackend :: loop)) with (yields loop).
    unfold loop. rewrite yields_loopEffects.
    etrans; [apply (loopYields_total (λ _ _, tt) id)|apply list_fmap_id].
  - change (telemetry (Invoked LsifBackend :: Invoked LspBackend :: loop))
      with (telemetry loop).
    unfold loop. by rewrite telemetry_loopEffects.
  - intros [|[|i]] action; simpl; [done|done|]. intros Hi.
    destruct (loopEffects_telemetry_then_yield _ _ _ _ id _ _ _ _ _
                (λ _ _ _, eq_refl) Hi) as (r & Hr & Hne & Hnext).
    by exists r.
  - done.
  - intros [?|?%list_elem_of_singleton]%elem_of_cons; done.
Qed.

Lemma definition_protocol_forwards_all_witness :
  preciseDefinitions (Samples.preciseNothing Samples.doc Samples.pos) = [] ∧
  let es := runGen (createDefinitionProvider Samples.imprecise
                      Samples.preciseNothing Samples.noDefinitions
                      (Some Samples.definitionsWithEmpties) Samples.doc Samples.pos) in
  yields es = [Null; Array []; Array [Samples.locC]; Array []; Single Samples.locD] ∧
  telemetry es = ["lspDefinitions"] ∧
  (∀ i action, es !! i = Some (Telemetry action) →
     ∃ r, r ∈ Samples.definitionsWithEmpties Samples.doc Samples.pos ∧
          nonEmpty r = true ∧ es !! S i = Some (Yielded r)) ∧
  invoked es = [LsifBackend; LspBackend] ∧
  (SearchBackend ∉ invoked es).
Proof.
  split; [reflexivity|].
  apply (definition_protocol_forwards_all Samples.imprecise
           Samples.preciseNothing Samples.noDefinitions
           Samples.definitionsWithEmpties Samples.doc Samples.pos).
  reflexivity.
Defined.

(** C9. For every query to the document-highlights composer only the precise
    backend is consulted: each non-null batch it yields is forwarded verbatim,
    the precise-highlights event ([lsifDocumentHighlight]) is logged once, when
    there is such a batch, and neither the protocol nor the heuristic backend is
    ever called, whatever is supplied for them. *)
Theorem document_highlights_precise_only
    (lsifProvider searchProvider : DocumentHighlightProvider)
    (lspProvider : option DocumentHighlightProvider)
    (textDocument : TextDocument) (position : Position) :
  let es := runGen (createDocumentHighlightProvider lsifProvider searchProvider
                      lspProvider textDocument position) in
  yields es = filter is_Some (lsifProvider textDocument position) ∧
  telemetry es =
    (if existsb (λ r, bool_decide (is_Some r)) (lsifProvider textDocument position)
     then ["lsifDocumentHighlight"] else []) ∧
  invoked es = [LsifBackend] ∧
  (LspBackend ∉ invoked es) ∧
  (SearchBackend ∉ invoked es).
Proof.
  intros es. subst es. rewrite createDocumentHighlightProvider_effects.
  set (loop := loopEffects _ _ _ _ _ _ _).
  assert (Hinvoked : invoked (Invoked LsifBackend :: loop) = [LsifBackend]).
  { change (invoked (Invoked LsifBackend :: loop)) with (LsifBackend :: invoked loop).
    unfold loop. by rewrite invoked_loopEffects. }
  rewrite Hinvoked. split_and!.
  - change (yields (Invoked LsifBackend :: loop)) with (yields loop).
    unfold loop. rewrite yields_loopEffects.
    etrans; [apply (loopYields_filter (λ _ _, tt) (λ r, bool_decide (is_Some r)) id)|].
    rewrite list_fmap_id. apply list_filter_iff. intros r.
    split; [apply bool_decide_unpack|apply bool_decide_pack].
  - change (telemetry (Invoked LsifBackend :: loop)) with (telemetry loop).
    unfold loop. by rewrite telemetry_loopEffects.
  - done.
  - by intros ?%list_elem_of_singleton.
  - by intros ?%list_elem_of_singleton.
Qed.

Lemma file_withBadge impreciseBadge location :
  file (withBadge impreciseBadge location) = file location.
Proof. done. Qed.

(** C2. For every query to the references composer with no protocol backend
    configured: from each heuristic batch the locations whose same-file
    fingerprint ([file]: host, path and fragment) matches a file of the precise
    results are removed; a batch that this filtering empties is not yielded;
    each surviving batch is yielded as the precise results followed by the badged
    filtered batch, so (beyond the precise prefix itself) a yielded batch
    has no location in a file of the precise results. The precise results are
    the value of [lsifResults], the last non-empty precise batch. *)
Theorem references_heuristic_batches_filtered
    (impreciseBadge : BadgeAttachmentRenderOptions)
    (lsifProvider searchProvider : ReferencesProvider)
    (textDocument : TextDocument) (position : Position) (context : ReferenceContext) :
  let es := runGen (createReferencesProvider impreciseBadge lsifProvider searchProvider
                      None textDocument position context) in
  let precise := lastNonEmptyBatch (lsifProvider textDocument position context) in
  let survivors :=
    filter (λ kept, kept ≠ [])
      (outsideFilesOf precise <$> searchProvider textDocument position context) in
  yields es =
    nonEmptyBatches (lsifProvider textDocument position context) ++
    ((λ kept, Some (precise ++ (withBadge impreciseBadge <$> kept))) <$> survivors) ∧
  Forall (λ kept,
            kept ≠ [] ∧
            ∀ location, location ∈ withBadge impreciseBadge <$> kept →
              badge location = Some impreciseBadge ∧
              ∀ p, p ∈ precise → file location ≠ file p) survivors ∧
  invoked es = [LsifBackend; SearchBackend] ∧
  (LspBackend ∉ invoked es).
Proof.
  intros es precise survivors. subst es. split_and!.
  - apply createReferencesProvider_yields.
  - apply Forall_forall. intros kept [Hkept Hin]%list_elem_of_filter.
    apply list_elem_of_fmap in Hin as (batch & -> & _).
    split; [done|]. intros location (l & -> & Hl)%list_elem_of_fmap.
    split; [done|]. intros p Hp. rewrite file_withBadge.
    apply list_elem_of_filter in Hl as [Hl _].
    intros Hfile. apply Hl. rewrite Hfile. by apply list_elem_of_fmap_2.
  - apply (createReferencesProvider_telemetry_invoked impreciseBadge lsifProvider
             searchProvider None).
  - rewrite (proj2 (createReferencesProvider_telemetry_invoked impreciseBadge
                      lsifProvider searchProvider None textDocument position context)).
    intros [?|?%list_elem_of_singleton]%elem_of_cons; done.
Qed.

(** C5. For every query to the references composer with a protocol (lsp)
    backend configured: each non-empty protocol batch is yielded as the precise
    results so far (the value of [lsifResults]) followed by the whole protocol
    batch, nothing being removed from either; empty protocol batches are
    skipped; the protocol-references event ([lspReferences]) is logged once,
    when there is a non-empty protocol batch; and the heuristic (search) backend
    is never called. *)
Theorem references_protocol_concatenates
    (impreciseBadge : BadgeAttachmentRenderOptions)
    (lsifProvider searchProvider lspProvider : ReferencesProvider)
    (textDocument : TextDocument) (position : Position) (context : ReferenceContext) :
  let es := runGen (createReferencesProvider impreciseBadge lsifProvider searchProvider
                      (Some lspProvider) textDocument position context) in
  let precise := lastNonEmptyBatch (lsifProvider textDocument position context) in
  yields es =
    nonEmptyBatches (lsifProvider textDocument position context) ++
    ((λ batch, Some (precise ++ asArray (ofBatch batch))) <$>
       nonEmptyBatches (lspProvider textDocument position context)) ∧
  telemetry es =
    (if existsb (λ b, nonEmpty (ofBatch b)) (lsifProvider textDocument position context)
     then ["lsifReferences"] else []) ++
    (if existsb (λ b, nonEmpty (ofBatch b)) (lspProvider textDocument position context)
     then ["lspReferences"] else []) ∧
  invoked es = [LsifBackend; LspBackend] ∧
  (SearchBackend ∉ invoked es).
Proof.
  intros es precise. subst es.
  pose proof (createReferencesProvider_telemetry_invoked impreciseBadge lsifProvider
                searchProvider (Some lspProvider) textDocument position context)
    as [Htelemetry Hinvoked].
  split_and!.
  - apply (createReferencesProvider_yields impreciseBadge lsifProvider searchProvider
             (Some lspProvider)).
  - done.
  - done.
  - rewrite Hinvoked. intros [?|?%list_elem_of_singleton]%elem_of_cons; done.
Qed.

(** The protocol path keeps a location that is both in the precise results
    and in the protocol batch twice. *)
Example references_protocol_keeps_duplicates :
  yields (runGen (createReferencesProvider Samples.imprecise
                    (λ _ _ _, [Some [Samples.locA]]) Samples.noReferences
                    (Some (λ _ _ _, [Some []; Some [Samples.locA; Samples.locB]]))
                    Samples.doc Samples.pos Samples.ctx)) =
    [Some [Samples.locA];
     Some [Samples.locA; Samples.locA; Samples.locB]].
Proof. reflexivity. Qed.

(** C10. In every invocation of the references composer, the prefix put in
    front of each protocol or heuristic batch, and the files taken as already
    covered when heuristic batches are filtered, come from the most recent
    non-empty precise batch alone. So when the precise batches are not
    cumulative, a location of an earlier batch whose file is not a file of that
    last batch is not part of the prefix, and the heuristic locations of its
    file are not filtered out. *)
Theorem references_prefix_is_latest_precise_batch
    (impreciseBadge : BadgeAttachmentRenderOptions)
    (lsifProvider searchProvider : ReferencesProvider)
    (lspProvider : option ReferencesProvider)
    (textDocument : TextDocument) (position : Position) (context : ReferenceContext)
    (earlier later : list (option (list Location))) (latest : list Location)
    (old : Location) :
  lsifProvider textDocument position context = earlier ++ [Some latest] ++ later →
  latest ≠ [] →
  Forall (λ batch, nonEmpty (ofBatch batch) = false) later →
  (∃ batch, batch ∈ earlier ∧ old ∈ asArray (ofBatch batch)) →
  file old ∉ file <$> latest →
  let es := runGen (createReferencesProvider impreciseBadge lsifProvider searchProvider
                      lspProvider textDocument position context) in
  yields es =
    nonEmptyBatches (lsifProvider textDocument position context) ++
    match lspProvider with
    | Some lspProvider =>
        (λ batch, Some (latest ++ asArray (ofBatch batch))) <$>
          nonEmptyBatches (lspProvider textDocument position context)
    | None =>
        (λ kept, Some (latest ++ (withBadge impreciseBadge <$> kept))) <$>
          filter (λ kept, kept ≠ [])
            (outsideFilesOf latest <$> searchProvider textDocument position context)
    end ∧
  (∃ batch, batch ∈ nonEmptyBatches (lsifProvider textDocument position context) ∧
            old ∈ asArray (ofBatch batch)) ∧
  (old ∉ latest) ∧
  (∀ batch location,
     location ∈ asArray (ofBatch batch) → file location = file old →
     location ∈ outsideFilesOf latest batch).
Proof.
  intros Hbatches Hlatest Hlater (batch & Hbatch & Hin) Hold es. subst es. split_and!;
    [| exists batch; split; [|done];
       apply list_elem_of_filter; split;
       [apply nonEmpty_ofBatch_iff; intros Hnil; rewrite Hnil in Hin;
        by apply elem_of_nil in Hin
       |rewrite Hbatches; apply elem_of_app; by left] | |].
  - rewrite createReferencesProvider_yields. cbv zeta.
    replace (lastNonEmptyBatch (lsifProvider textDocument position context)) with latest;
      [done|].
    rewrite Hbatches. symmetry. by apply lastNonEmptyBatch_decompose.
  - intros Hold'. apply Hold. by apply list_elem_of_fmap_2.
  - intros batch' location Hin' Hfile. apply list_elem_of_filter.
    split; [by rewrite Hfile|done].
Qed.

Lemma references_prefix_is_latest_precise_batch_witness :
  Samples.preciseNotCumulative Samples.doc Samples.pos Samples.ctx =
    [Some [Samples.locA]; None] ++ [Some [Samples.locB]] ++ [Some []] ∧
  yields (runGen (createReferencesProvider Samples.imprecise
                    Samples.preciseNotCumulative Samples.referencesEverywhere None
                    Samples.doc Samples.pos Samples.ctx)) =
    nonEmptyBatches (Samples.preciseNotCumulative Samples.doc Samples.pos Samples.ctx) ++
    ((λ kept, Some ([Samples.locB] ++ (withBadge Samples.imprecise <$> kept))) <$>
       filter (λ kept, kept ≠ [])
         (outsideFilesOf [Samples.locB] <$>
            Samples.referencesEverywhere Samples.doc Samples.pos Samples.ctx)) ∧
  (∃ batch,
     batch ∈ nonEmptyBatches
               (Samples.preciseNotCumulative Samples.doc Samples.pos Samples.ctx) ∧
     Samples.locA ∈ asArray (ofBatch batch)) ∧
  (Samples.locA ∉ [Samples.locB]) ∧
  (∀ batch location,
     location ∈ asArray (ofBatch batch) → file location = file Samples.locA →
     location ∈ outsideFilesOf [Samples.locB] batch).
Proof.
  split; [reflexivity|].
  apply (references_prefix_is_latest_precise_batch Samples.imprecise
           Samples.preciseNotCumulative Samples.referencesEverywhere None
           Samples.doc Samples.pos Samples.ctx
           [Some [Samples.locA]; None] [Some []] [Samples.locB] Samples.locA).
  - reflexivity.
  - discriminate.
  - repeat constructor.
  - exists (Some [Samples.locA]). split; [left|left].
  - vm_compute. intros [Heq|Hin]%elem_of_cons; [discriminate|by apply elem_of_nil in Hin].
Defined.

(** What the sample above yields: [locA], of the first precise batch, is not
    re-emitted with the heuristic batches, and the heuristic location [locA']
    of the same file is kept. *)
Example references_not_cumulative_run :
  yields (runGen (createReferencesProvider Samples.imprecise
                    Samples.preciseNotCumulative Samples.referencesEverywhere None
                    Samples.doc Samples.pos Samples.ctx)) =
    [Some [Samples.locA];
     Some [Samples.locB];
     Some [Samples.locB; withBadge Samples.imprecise Samples.locA'];
     Some [Samples.locB; withBadge Samples.imprecise Samples.locC];
     Some [Samples.locB; withBadge Samples.imprecise Samples.locA';
           withBadge Samples.imprecise Samples.locD]].
Proof. vm_compute. reflexivity. Qed.

(** ** The hover composer: alerts *)

Lemma loopYields_hover_no_alerts results :
  loopYields hoverOut hoverNext None results = nonNull results.
Proof.
  induction results as [|[h|] rs IH]; simpl; [done| |done].
  by rewrite IH.
Qed.

(** A hover loop puts the pending alerts on the first non-null value and
    yields the later ones as they are. *)
Lemma loopYields_hover alerts results :
  loopYields hoverOut hoverNext alerts results = alertFirst alerts (nonNull results).
Proof.
  induction results as [|[h|] rs IH]; simpl; [done| |done].
  by rewrite loopYields_hover_no_alerts.
Qed.

(** [{ ...hover, alerts }] has the given alerts and is otherwise [hover]. *)
Lemma withAlerts_fields attached h :
  alerts (withAlerts attached h) = Some attached ∧
  contents (withAlerts attached h) = contents h ∧
  hover_range (withAlerts attached h) = hover_range h.
Proof. done. Qed.

(** C6. For every query to the hover composer where the precise backend
    returns a hover text with an empty definition and the probe of the heuristic
    definition backend finds a non-empty value, the composer yields exactly one
    value, the precise hover with the partial-precise-only alert
    ([lsifPartialHoverOnly]), logs the precise-hover event ([lsifHover]) once
    and stops: neither the protocol backend nor the heuristic hover backend is
    called. *)
Theorem hover_partial_precise_data
    (alertConstants : HoverAlerts.t) (lsifSupport : LSIFSupport.t)
    (lsifProvider : DefinitionAndHoverProvider)
    (searchDefinitionProvider : DefinitionProvider)
    (searchHoverProvider : HoverProvider) (lspProvider : option HoverProvider)
    (textDocument : TextDocument) (position : Position)
    (lsifWrapper : DefinitionAndHover) (lsifHover : Hover) :
  lsifProvider textDocument position = Some lsifWrapper →
  hover lsifWrapper = Some lsifHover →
  nonEmpty (definition lsifWrapper) = false →
  existsb nonEmpty (searchDefinitionProvider textDocument position) = true →
  let es := runGen (createHoverProvider alertConstants lsifSupport lsifProvider
                      searchDefinitionProvider searchHoverProvider lspProvider
                      textDocument position) in
  yields es =
    [withAlerts [HoverAlerts.lsifPartialHoverOnly alertConstants] lsifHover] ∧
  alerts <$> yields es = [Some [HoverAlerts.lsifPartialHoverOnly alertConstants]] ∧
  contents <$> yields es = [contents lsifHover] ∧
  hover_range <$> yields es = [hover_range lsifHover] ∧
  telemetry es = ["lsifHover"] ∧
  invoked es = [LsifBackend; SearchDefinitionBackend] ∧
  (LspBackend ∉ invoked es) ∧
  (SearchHoverBackend ∉ invoked es).
Proof.
  intros Hwrapper Hhover Hdefinition Hprobe es. subst es.
  rewrite createHoverProvider_effects, Hwrapper, Hhover, Hdefinition, Hprobe.
  split_and!; try done;
    intros [?|?%list_elem_of_singleton]%elem_of_cons; done.
Qed.

Lemma hover_partial_precise_data_witness :
  Samples.preciseHoverOnly Samples.doc Samples.pos =
    Some {| definition := Array []; hover := Some (Samples.hoverText "H") |} ∧
  existsb nonEmpty (Samples.definitionsWithEmpties Samples.doc Samples.pos) = true ∧
  let es := runGen (createHoverProvider Samples.alertConstants LSIFSupport.Robust
                      Samples.preciseHoverOnly Samples.definitionsWithEmpties
                      Samples.hoversWithOwnAlert (Some Samples.hoversWithOwnAlert)
                      Samples.doc Samples.pos) in
  yields es =
    [withAlerts [Samples.alert "lsifPartialHoverOnly"] (Samples.hoverText "H")] ∧
  alerts <$> yields es = [Some [Samples.alert "lsifPartialHoverOnly"]] ∧
  contents <$> yields es = ["H"] ∧
  hover_range <$> yields es = [None] ∧
  telemetry es = ["lsifHover"] ∧
  invoked es = [LsifBackend; SearchDefinitionBackend] ∧
  (LspBackend ∉ invoked es) ∧
  (SearchHoverBackend ∉ invoked es).
Proof.
  split; [reflexivity|]. split; [reflexivity|].
  apply (hover_partial_precise_data Samples.alertConstants LSIFSupport.Robust
           Samples.preciseHoverOnly Samples.definitionsWithEmpties
           Samples.hoversWithOwnAlert (Some Samples.hoversWithOwnAlert)
           Samples.doc Samples.pos
           {| definition := Array []; hover := Some (Samples.hoverText "H") |}
           (Samples.hoverText "H")); reflexivity.
Defined.

(** C7, as stated, fails: the second non-null value of the protocol backend
    (and of the heuristic backend) below has an [alerts] property of its own,
    and the composer yields it with that property. *)
Lemma hover_later_yield_keeps_own_alerts :
  ¬ laterYieldsCarryNoAlerts
      (yields (runGen (createHoverProvider Samples.alertConstants LSIFSupport.Robust
                         Samples.preciseNothing Samples.noDefinitions
                         Samples.noHovers (Some Samples.hoversWithOwnAlert)
                         Samples.doc Samples.pos))) ∧
  ¬ laterYieldsCarryNoAlerts
      (yields (runGen (createHoverProvider Samples.alertConstants LSIFSupport.Robust
                         Samples.preciseNothing Samples.noDefinitions
                         Samples.hoversWithOwnAlert None
                         Samples.doc Samples.pos))).
Proof.
  split; intros Hnone;
    specialize (Hnone (Samples.hoverWithOwnAlert "second"));
    (discriminate Hnone; left).
Qed.

(** C7, amended. In every invocation of the hover composer that reaches the
    protocol path or the heuristic path (the precise backend gave no hover
    text), the composer attaches an alert set to the first non-null value it
    yields and to no other: every later non-null value is yielded exactly as the
    backend produced it, so it carries no alerts unless the backend's value had
    alerts of its own. *)
Theorem hover_alerts_attached_to_first_only
    (alertConstants : HoverAlerts.t) (lsifSupport : LSIFSupport.t)
    (lsifProvider : DefinitionAndHoverProvider)
    (searchDefinitionProvider : DefinitionProvider)
    (searchHoverProvider : HoverProvider) (lspProvider : option HoverProvider)
    (textDocument : TextDocument) (position : Position) :
  preciseHover (lsifProvider textDocument position) = None →
  let es := runGen (createHoverProvider alertConstants lsifSupport lsifProvider
                      searchDefinitionProvider searchHoverProvider lspProvider
                      textDocument position) in
  let results :=
    match lspProvider with
    | Some lspProvider => lspProvider textDocument position
    | None => searchHoverProvider textDocument position
    end in
  let attached :=
    match lspProvider with
    | Some _ => [HoverAlerts.lsp alertConstants]
    | None =>
        if hasPreciseDefinition (lsifProvider textDocument position)
        then [HoverAlerts.lsifPartialDefinitionOnly alertConstants]
        else match lsifSupport with
             | LSIFSupport.None => [HoverAlerts.searchLSIFSupportNone alertConstants]
             | LSIFSupport.Experimental =>
                 [HoverAlerts.searchLSIFSupportExperimental alertConstants]
             | LSIFSupport.Robust => [HoverAlerts.searchLSIFSupportRobust alertConstants]
             end
    end in
  yields es =
    match nonNull results with
    | [] => []
    | first :: others => withAlerts attached first :: others
    end ∧
  ((∀ h, h ∈ nonNull results → alerts h = None) → laterYieldsCarryNoAlerts (yields es)).
Proof.
  intros Hhover es results attached.
  assert (Hyields : yields es = alertFirst (Some attached) (nonNull results)).
  { subst es. rewrite createHoverProvider_effects.
    assert (Hfall : ∀ b, hasPreciseDefinition (lsifProvider textDocument position) = b →
              yields (Invoked LsifBackend ::
                      fallThroughEffects alertConstants lsifSupport searchHoverProvider
                        lspProvider textDocument position b) =
              alertFirst (Some attached) (nonNull results)).
    { intros b Hb. subst results attached. rewrite Hb.
      change (yields (Invoked LsifBackend :: ?t)) with (yields t).
      unfold fallThroughEffects. destruct lspProvider as [lsp|].
      - change (yields (Invoked LspBackend :: ?t)) with (yields t).
        by rewrite yields_loopEffects, loopYields_hover.
      - change (yields (Invoked SearchHoverBackend :: ?t)) with (yields t).
        rewrite yields_loopEffects, loopYields_hover.
        by destruct b, lsifSupport. }
    destruct (lsifProvider textDocument position) as [lsifWrapper|]; simpl in *.
    - rewrite Hhover. by apply Hfall.
    - by apply Hfall. }
  split.
  - rewrite Hyields. by destruct (nonNull results).
  - intros Hnone h Hh. rewrite Hyields in Hh. apply Hnone.
    destruct (nonNull results) as [|first others]; simpl in Hh; [done|by right].
Qed.

Lemma hover_alerts_attached_to_first_only_witness :
  preciseHover (Samples.preciseNothing Samples.doc Samples.pos) = None ∧
  let es := runGen (createHoverProvider Samples.alertConstants LSIFSupport.Robust
                      Samples.preciseNothing Samples.noDefinitions
                      Samples.noHovers (Some Samples.hoversWithOwnAlert)
                      Samples.doc Samples.pos) in
  yields es =
    [withAlerts [Samples.alert "lsp"] (Samples.hoverText "first");
     Samples.hoverWithOwnAlert "second"] ∧
  ((∀ h, h ∈ nonNull (Samples.hoversWithOwnAlert Samples.doc Samples.pos) →
         alerts h = None) →
   laterYieldsCarryNoAlerts (yields es)).
Proof.
  split; [reflexivity|].
  apply (hover_alerts_attached_to_first_only Samples.alertConstants LSIFSupport.Robust
           Samples.preciseNothing Samples.noDefinitions
           Samples.noHovers (Some Samples.hoversWithOwnAlert)
           Samples.doc Samples.pos).
  reflexivity.
Defined.

(** ** Telemetry: at most once per invocation *)

Section Preserves.

Context {R : Type}.

Lemma emitterConsistent_initial :
  emitterConsistent (R:=R) {| emitter := TelemetryEmitter.new; effects := [] |}.
Proof. split; [constructor|]. intros action Hin. by apply elem_of_nil in Hin. Qed.

Lemma preserves_mret {A} (x : A) : preserves (R:=R) (mret x).
Proof. by intros s Hs. Qed.

Lemma preserves_bind {A B} (m : Gen R A) (f : A → Gen R B) :
  preserves m → (∀ x, preserves (f x)) → preserves (m ≫= f).
Proof.
  intros Hm Hf s Hs. rewrite bind_run. apply Hf, Hm, Hs.
Qed.

Lemma preserves_yield (r : R) : preserves (yield r).
Proof.
  intros s [Hnodup Hin]. unfold emitterConsistent. rewrite yield_run. simpl.
  rewrite telemetry_app. simpl. by rewrite app_nil_r.
Qed.

Lemma preserves_invoke {A} backend (result : A) : preserves (R:=R) (invoke backend result).
Proof.
  intros s [Hnodup Hin]. unfold emitterConsistent. rewrite invoke_run. simpl.
  rewrite telemetry_app. simpl. by rewrite app_nil_r.
Qed.

Lemma preserves_emitOnce action : preserves (R:=R) (emitOnce action).
Proof.
  intros s [Hnodup Hin]. unfold emitterConsistent.
  rewrite emitOnce_run. simpl. rewrite telemetry_app.
  unfold hasFired, fire, TelemetryEmitter.emitOnce.
  destruct (decide (action ∈ TelemetryEmitter.emitted (emitter s))) as [Hfired|Hfresh].
  - rewrite bool_decide_eq_true_2 by done. simpl. by rewrite app_nil_r.
  - rewrite bool_decide_eq_false_2 by done. simpl. split.
    + apply NoDup_app. split_and!; [done| |apply NoDup_singleton].
      intros a Ha ->%list_elem_of_singleton. by apply Hfresh, Hin.
    + intros a [Ha| ->%list_elem_of_singleton]%elem_of_app; apply elem_of_union.
      * right. by apply Hin.
      * left. by apply elem_of_singleton.
Qed.

Lemma preserves_forAwait {X Acc} (xs : list X) (acc : Acc) (body : Acc → X → Gen R Acc) :
  (∀ acc x, preserves (body acc x)) → preserves (forAwait xs acc body).
Proof.
  intros Hbody. revert acc. induction xs as [|x xs IH]; intros acc; simpl.
  - apply preserves_mret.
  - apply preserves_bind; [apply Hbody|]. intros acc'. apply IH.
Qed.

Lemma preserves_forAwaitBreak {X Acc} (xs : list X) (acc : Acc)
    (body : Acc → X → Gen R (Acc * LoopControl)) :
  (∀ acc x, preserves (body acc x)) → preserves (forAwaitBreak xs acc body).
Proof.
  intros Hbody. revert acc. induction xs as [|x xs IH]; intros acc; simpl.
  - apply preserves_mret.
  - apply preserves_bind; [apply Hbody|]. intros [acc' [|]]; [apply IH|apply preserves_mret].
Qed.

(** Creating the emitter first and keeping the invariant afterwards sets the
    invariant up. *)
Lemma establishes_new {A} (body : Gen R A) :
  preserves body → establishes (newTelemetryEmitter;; body).
Proof.
  intros Hbody s Hs. rewrite bind_run, newTelemetryEmitter_run. simpl.
  apply Hbody. rewrite Hs. apply emitterConsistent_initial.
Qed.

(** An invocation that sets the invariant up logs no event twice. *)
Lemma runGenFrom_NoDup stale (body : Gen R unit) :
  establishes body → NoDup (telemetry (runGenFrom stale body)).
Proof. intros Hbody. by apply (Hbody {| emitter := stale; effects := [] |}). Qed.

(** An invocation that creates its emitter first does not depend on the
    emitter left by an earlier one. *)
Lemma runGenFrom_new stale (body : Gen R unit) :
  runGenFrom stale (newTelemetryEmitter;; body) = runGen (newTelemetryEmitter;; body).
Proof. unfold runGen, runGenFrom. by rewrite !bind_run, !newTelemetryEmitter_run. Qed.

End Preserves.

(** Goes through a generator body built from the operations above. *)
Ltac solve_preserves :=
  repeat first
    [ apply preserves_mret | apply preserves_yield | apply preserves_invoke
    | apply preserves_emitOnce | apply preserves_forAwait | apply preserves_forAwaitBreak
    | apply preserves_bind | progress intros | case_match ].

Lemma createDefinitionProvider_establishes impreciseBadge lsifProvider searchProvider
    lspProvider textDocument position :
  establishes (createDefinitionProvider impreciseBadge lsifProvider searchProvider
               lspProvider textDocument position).
Proof. unfold createDefinitionProvider. apply establishes_new. solve_preserves. Qed.

Lemma createReferencesProvider_establishes impreciseBadge lsifProvider searchProvider
    lspProvider textDocument position context :
  establishes (createReferencesProvider impreciseBadge lsifProvider searchProvider
               lspProvider textDocument position context).
Proof. unfold createReferencesProvider. apply establishes_new. solve_preserves. Qed.

Lemma createHoverProvider_establishes alertConstants lsifSupport lsifProvider
    searchDefinitionProvider searchHoverProvider lspProvider textDocument position :
  establishes (createHoverProvider alertConstants lsifSupport lsifProvider
               searchDefinitionProvider searchHoverProvider lspProvider
               textDocument position).
Proof. unfold createHoverProvider, hoverWithoutPreciseHover. apply establishes_new. solve_preserves. Qed.

Lemma createDocumentHighlightProvider_establishes lsifProvider searchProvider
    lspProvider textDocument position :
  establishes (createDocumentHighlightProvider lsifProvider searchProvider
               lspProvider textDocument position).
Proof. unfold createDocumentHighlightProvider. apply establishes_new. solve_preserves. Qed.

Lemma emitOnceTimes_fired n action e :
  action ∈ TelemetryEmitter.emitted e →
  TelemetryEmitter.emitOnceTimes n action e = (e, []).
Proof.
  intros Hfired. induction n as [|n IH]; simpl; [done|].
  unfold TelemetryEmitter.emitOnce. rewrite decide_True by done. by rewrite IH.
Qed.

(** C3. In a single invocation of any of the four composers every telemetry
    event name is logged at most once, however many values are yielded: the
    invocation creates one [TelemetryEmitter] of its own at its start, so what
    it logs does not depend on what an emitter of an earlier invocation has
    fired, and [emitOnce] called N ≥ 1 times with one name on one instance
    performs the emission exactly once (and not at all if the instance had
    fired the name before). *)
Theorem telemetry_fires_at_most_once :
  (∀ stale impreciseBadge lsifProvider searchProvider lspProvider textDocument position,
     let invocation := createDefinitionProvider impreciseBadge lsifProvider
                         searchProvider lspProvider textDocument position in
     NoDup (telemetry (runGenFrom stale invocation)) ∧
     runGenFrom stale invocation = runGen invocation) ∧
  (∀ stale impreciseBadge lsifProvider searchProvider lspProvider textDocument position
     context,
     let invocation := createReferencesProvider impreciseBadge lsifProvider
                         searchProvider lspProvider textDocument position context in
     NoDup (telemetry (runGenFrom stale invocation)) ∧
     runGenFrom stale invocation = runGen invocation) ∧
  (∀ stale alertConstants lsifSupport lsifProvider searchDefinitionProvider
     searchHoverProvider lspProvider textDocument position,
     let invocation := createHoverProvider alertConstants lsifSupport lsifProvider
                         searchDefinitionProvider searchHoverProvider lspProvider
                         textDocument position in
     NoDup (telemetry (runGenFrom stale invocation)) ∧
     runGenFrom stale invocation = runGen invocation) ∧
  (∀ stale lsifProvider searchProvider lspProvider textDocument position,
     let invocation := createDocumentHighlightProvider lsifProvider searchProvider
                         lspProvider textDocument position in
     NoDup (telemetry (runGenFrom stale invocation)) ∧
     runGenFrom stale invocation = runGen invocation) ∧
  (∀ n action,
     (TelemetryEmitter.emitOnceTimes (S n) action TelemetryEmitter.new).2 = [action]) ∧
  (∀ n action emitter,
     (TelemetryEmitter.emitOnceTimes (S n) action emitter).2 =
       if hasFired action emitter then [] else [action]).
Proof.
  assert (Htimes : ∀ n action emitter,
    (TelemetryEmitter.emitOnceTimes (S n) action emitter).2 =
      if hasFired action emitter then [] else [action]).
  { intros n action e. simpl. unfold hasFired, TelemetryEmitter.emitOnce.
    destruct (decide (action ∈ TelemetryEmitter.emitted e)) as [Hfired|Hfresh].
    - rewrite bool_decide_eq_true_2 by done. by rewrite emitOnceTimes_fired.
    - rewrite bool_decide_eq_false_2 by done.
      rewrite emitOnceTimes_fired; [done|]. simpl.
      apply elem_of_union. left. by apply elem_of_singleton. }
  split_and!; intros.
  - split; [apply runGenFrom_NoDup, createDefinitionProvider_establishes|].
    apply runGenFrom_new.
  - split; [apply runGenFrom_NoDup, createReferencesProvider_establishes|].
    apply runGenFrom_new.
  - split; [apply runGenFrom_NoDup, createHoverProvider_establishes|].
    apply runGenFrom_new.
  - split; [apply runGenFrom_NoDup, createDocumentHighlightProvider_establishes|].
    apply runGenFrom_new.
  - by rewrite Htimes, hasFired_new.
  - apply Htimes.
Qed.

(** ** The reconfiguration controller *)

Section ReregisterFacts.

Context {V : Type} `{EqDecision V}.

Implicit Types (c : Controller V) (es : list (RegistrationEvent V)).
Implicit Types (value initial : gmap string V) (fields : list string).

Lemma sameFields_agreeOn fields (a b : gmap string V) :
  sameFields fields a b = true ↔ agreeOn fields a b.
Proof.
  unfold agreeOn. induction fields as [|f fs IH]; simpl.
  - split; [|done]. intros _ field Hin. by apply elem_of_nil in Hin.
  - rewrite andb_true_iff, IH, bool_decide_eq_true. split.
    + intros [Hf Hfs] field [->|Hin]%elem_of_cons; auto.
    + intros Hall. split; [apply Hall; by left|]. intros field Hin. apply Hall. by right.
Qed.

Lemma disposedIn_app es1 es2 :
  disposedIn (es1 ++ es2) = disposedIn es1 ++ disposedIn es2.
Proof. apply omap_app. Qed.

Lemma registeredIn_app es1 es2 :
  registeredIn (es1 ++ es2) = registeredIn es1 ++ registeredIn es2.
Proof. apply omap_app. Qed.

(** Disposing a handle removes it from the active ones. *)
Lemma activeHandles_dispose es handle :
  activeHandles (es ++ [Disposed handle]) = filter (λ h, h ≠ handle) (activeHandles es).
Proof.
  unfold activeHandles. rewrite disposedIn_app, registeredIn_app. simpl.
  rewrite app_nil_r, list_filter_filter. apply list_filter_iff. intros h.
  rewrite not_elem_of_app, list_elem_of_singleton. tauto.
Qed.

(** Registering a handle never disposed before adds it to the active ones. *)
Lemma activeHandles_register es handle value :
  handle ∉ disposedIn es →
  activeHandles (es ++ [Registered handle value]) = activeHandles es ++ [handle].
Proof.
  intros Hfresh. unfold activeHandles. rewrite disposedIn_app, registeredIn_app. simpl.
  rewrite app_nil_r, filter_app, filter_cons, decide_True by done. done.
Qed.

Lemma atMostOneActive_snoc es (e : RegistrationEvent V) :
  atMostOneActive es → (length (activeHandles (es ++ [e])) ≤ 1)%nat →
  atMostOneActive (es ++ [e]).
Proof.
  intros Hes Hlast moment [rest Hrest].
  destruct rest as [|e' rest _] using rev_ind.
  - rewrite app_nil_r in Hrest. by subst moment.
  - rewrite app_assoc in Hrest. apply app_inj_tail in Hrest as [-> _].
    apply Hes. by exists rest.
Qed.

Lemma invariant_dispose c :
  controllerInvariant c → controllerInvariant (disposeRegistration c).
Proof.
  intros (Honce & Hnodup & Hactive & Hregistered & Hdisposed).
  unfold disposeRegistration, heldHandle in *.
  destruct (registration c) as [handle|] eqn:Hheld;
    [|unfold controllerInvariant, heldHandle; by rewrite Hheld].
  assert (Hhandle : (handle ∉ disposedIn (events c)) ∧ (handle < registerCalls c)%nat).
  { assert (Hin : handle ∈ activeHandles (events c)) by (rewrite Hactive; left).
    apply list_elem_of_filter in Hin as [Hfresh Hin]. auto. }
  destruct Hhandle as [Hfresh Hbound].
  assert (Hnow : activeHandles (events c ++ [Disposed handle]) = []).
  { rewrite activeHandles_dispose, Hactive, filter_cons, decide_False by auto. done. }
  unfold controllerInvariant. simpl. split_and!.
  - apply atMostOneActive_snoc; [done|]. rewrite Hnow. simpl. lia.
  - rewrite disposedIn_app. simpl. apply NoDup_app. split_and!; [done| |apply NoDup_singleton].
    intros h Hh ->%list_elem_of_singleton. done.
  - done.
  - intros h. rewrite registeredIn_app. simpl. rewrite app_nil_r. apply Hregistered.
  - intros h. rewrite disposedIn_app. simpl.
    intros [Hh| ->%list_elem_of_singleton]%elem_of_app; auto.
Qed.

Lemma registration_dispose c : registration (disposeRegistration c) = None.
Proof. unfold disposeRegistration. by destruct (registration c) eqn:Hheld. Qed.

Lemma invariant_register value c :
  controllerInvariant c → registration c = None →
  controllerInvariant (callRegister value c).
Proof.
  intros (Honce & Hnodup & Hactive & Hregistered & Hdisposed) Hnone.
  unfold heldHandle in Hactive. rewrite Hnone in Hactive.
  assert (Hfresh : registerCalls c ∉ disposedIn (events c)).
  { intros Hin%Hdisposed. lia. }
  assert (Hnow : activeHandles (events c ++ [Registered (registerCalls c) value])
                 = [registerCalls c]).
  { by rewrite activeHandles_register, Hactive. }
  unfold controllerInvariant, callRegister, heldHandle. simpl. split_and!.
  - apply atMostOneActive_snoc; [done|]. rewrite Hnow. simpl. lia.
  - rewrite disposedIn_app. simpl. by rewrite app_nil_r.
  - done.
  - intros h. rewrite registeredIn_app. simpl.
    intros [Hh%Hregistered| ->%list_elem_of_singleton]%elem_of_app; lia.
  - intros h. rewrite disposedIn_app. simpl. rewrite app_nil_r.
    intros Hh%Hdisposed. lia.
Qed.

Lemma invariant_initial fields initial :
  controllerInvariant (reregisterOnChange fields initial).
Proof.
  apply invariant_register; [|done].
  unfold controllerInvariant. simpl. split_and!; try done.
  - intros moment ->%prefix_nil_inv. simpl. lia.
  - constructor.
  - intros h Hh. by apply elem_of_nil in Hh.
  - intros h Hh. by apply elem_of_nil in Hh.
Qed.

Lemma invariant_step fields c (i : ControllerInput V) :
  controllerInvariant c → controllerInvariant (stepController fields c i).
Proof.
  intros Hc. destruct i as [value|]; simpl.
  - unfold onSnapshot. destruct (subscribed c); [|done].
    destruct (sameFields fields (previous c) value); [done|].
    apply invariant_register; [by apply invariant_dispose|apply registration_dispose].
  - unfold unsubscribe. destruct (subscribed c); [|done].
    by apply invariant_dispose in Hc.
Qed.

(** The invariant holds however the controller is driven. *)
Lemma invariant_run fields initial (inputs : list (ControllerInput V)) :
  controllerInvariant (runController fields initial inputs).
Proof.
  unfold runController.
  induction inputs as [|i inputs IH] using rev_ind; simpl.
  - apply invariant_initial.
  - rewrite foldl_snoc. by apply invariant_step.
Qed.

(** While only snapshots arrive, the controller stays subscribed, holds a
    handle, and its stored snapshot has the tracked fields of the last snapshot
    that arrived. *)
Lemma run_snapshots fields initial (history : list (gmap string V)) :
  let c := runController fields initial (snapshotsOf history) in
  subscribed c = true ∧
  agreeOn fields (previous c) (default initial (last history)) ∧
  ∃ handle, registration c = Some handle.
Proof.
  unfold runController, snapshotsOf.
  induction history as [|value history IH] using rev_ind.
  - simpl. split_and!; [done|done|by eexists].
  - cbv zeta in IH. rewrite fmap_app. simpl. rewrite foldl_snoc, last_snoc. simpl.
    destruct IH as (Hsubscribed & Hagree & handle & Hheld).
    unfold onSnapshot. rewrite Hsubscribed.
    destruct (sameFields fields _ value) eqn:Hsame.
    + split_and!; [done| |by eexists]. by apply sameFields_agreeOn.
    + split_and!; [|by intros field _|by eexists].
      simpl. unfold disposeRegistration. by rewrite Hheld.
Qed.

End ReregisterFacts.

(** Once the controller is disposed it ignores whatever happens. *)
Lemma unsubscribed_inert {V} `{EqDecision V} (fields : list string) (c : Controller V)
    (inputs : list (ControllerInput V)) :
  subscribed c = false → foldl (stepController fields) c inputs = c.
Proof.
  intros Hclosed. induction inputs as [|i inputs IH] using rev_ind; [done|].
  rewrite foldl_snoc, IH. destruct i; simpl.
  - unfold onSnapshot. by rewrite Hclosed.
  - unfold unsubscribe. by rewrite Hclosed.
Qed.

(** C8. For [reregisterOnChange] with tracked fields F: a snapshot that differs
    from the previous one only outside F triggers no call of [registerFn] (and
    disposes nothing); a snapshot that differs from the previous one in a field
    of F triggers exactly one new call of [registerFn], with the full new
    snapshot, right after the disposal of the one handle held; disposing the
    returned controller disposes the handle held at that time, once, and nothing
    happens afterwards; and at every moment at most one handle is active, no
    handle being disposed twice. *)
Theorem reregisterOnChange_tracked_fields {V} `{EqDecision V}
    (fields : list string) (initial : gmap string V)
    (history : list (gmap string V)) (same changed : gmap string V) :
  agreeOn fields (default initial (last history)) same →
  (∃ field, field ∈ fields ∧
            default initial (last history) !! field ≠ changed !! field) →
  let c := runController fields initial (snapshotsOf history) in
  onSnapshot fields same c = c ∧
  (∃ handle,
     registration c = Some handle ∧
     events (onSnapshot fields changed c) =
       events c ++ [Disposed handle; Registered (registerCalls c) changed] ∧
     registration (onSnapshot fields changed c) = Some (registerCalls c)) ∧
  (∃ handle,
     registration c = Some handle ∧
     (handle ∉ disposedIn (events c)) ∧
     events (unsubscribe c) = events c ++ [Disposed handle] ∧
     registration (unsubscribe c) = None ∧
     ∀ inputs, foldl (stepController fields) (unsubscribe c) inputs = unsubscribe c) ∧
  (∀ inputs,
     atMostOneActive (events (runController fields initial inputs)) ∧
     NoDup (disposedIn (events (runController fields initial inputs)))).
Proof.
  intros Hsame (field & Hfield & Hchanged) c.
  destruct (run_snapshots fields initial history) as (Hsubscribed & Hagree & handle & Hheld).
  fold c in Hsubscribed, Hagree, Hheld.
  split_and!.
  - unfold onSnapshot. rewrite Hsubscribed.
    replace (sameFields fields (previous c) same) with true; [done|].
    symmetry. apply sameFields_agreeOn. intros f Hf.
    by rewrite (Hagree f Hf), (Hsame f Hf).
  - exists handle. unfold onSnapshot. rewrite Hsubscribed.
    destruct (sameFields fields (previous c) changed) eqn:Hcompare.
    + apply sameFields_agreeOn in Hcompare. exfalso. apply Hchanged.
      by rewrite <- (Hagree field Hfield), (Hcompare field Hfield).
    + unfold disposeRegistration. rewrite Hheld. simpl.
      by rewrite <- app_assoc.
  - exists handle.
    assert (Hfresh : handle ∉ disposedIn (events c)).
    { destruct (invariant_run fields initial (snapshotsOf history))
        as (_ & _ & Hactive & _).
      fold c in Hactive. unfold heldHandle in Hactive. rewrite Hheld in Hactive.
      assert (Hin : handle ∈ activeHandles (events c)) by (rewrite Hactive; left).
      by apply list_elem_of_filter in Hin as [Hin _]. }
    unfold unsubscribe. rewrite Hsubscribed.
    unfold disposeRegistration. rewrite Hheld. simpl.
    split_and!; try done. intros inputs. by apply unsubscribed_inert.
  - intros inputs.
    destruct (invariant_run fields initial inputs) as (Honce & Hnodup & _). done.
Qed.

Lemma reregisterOnChange_tracked_fields_witness :
  agreeOn ["bar"]
    (default (Samples.settings "foo1" "bar2" "baz3")
             (last [Samples.settings "foo4" "bar2" "baz4"]))
    (Samples.settings "foo9" "bar2" "baz9") ∧
  (∃ field, field ∈ ["bar"] ∧
            default (Samples.settings "foo1" "bar2" "baz3")
                    (last [Samples.settings "foo4" "bar2" "baz4"]) !! field
            ≠ Samples.settings "foo5" "bar3" "baz5" !! field) ∧
  let c := runController ["bar"] (Samples.settings "foo1" "bar2" "baz3")
             (snapshotsOf [Samples.settings "foo4" "bar2" "baz4"]) in
  onSnapshot ["bar"] (Samples.settings "foo9" "bar2" "baz9") c = c ∧
  (∃ handle,
     registration c = Some handle ∧
     events (onSnapshot ["bar"] (Samples.settings "foo5" "bar3" "baz5") c) =
       events c ++
       [Disposed handle;
        Registered (registerCalls c) (Samples.settings "foo5" "bar3" "baz5")] ∧
     registration (onSnapshot ["bar"] (Samples.settings "foo5" "bar3" "baz5") c) =
       Some (registerCalls c)) ∧
  (∃ handle,
     registration c = Some handle ∧
     (handle ∉ disposedIn (events c)) ∧
     events (unsubscribe c) = events c ++ [Disposed handle] ∧
     registration (unsubscribe c) = None ∧
     ∀ inputs, foldl (stepController ["bar"]) (unsubscribe c) inputs = unsubscribe c) ∧
  (∀ inputs,
     atMostOneActive
       (events (runController ["bar"] (Samples.settings "foo1" "bar2" "baz3") inputs)) ∧
     NoDup (disposedIn
              (events (runController ["bar"] (Samples.settings "foo1" "bar2" "baz3")
                         inputs)))).
Proof.
  assert (Hsame : agreeOn ["bar"]
    (default (Samples.settings "foo1" "bar2" "baz3")
             (last [Samples.settings "foo4" "bar2" "baz4"]))
    (Samples.settings "foo9" "bar2" "baz9")).
  { intros field ->%list_elem_of_singleton. reflexivity. }
  assert (Hchanged : ∃ field, field ∈ ["bar"] ∧
            default (Samples.settings "foo1" "bar2" "baz3")
                    (last [Samples.settings "foo4" "bar2" "baz4"]) !! field
            ≠ Samples.settings "foo5" "bar3" "baz5" !! field).
  { exists "bar". split; [left|]. vm_compute. discriminate. }
  split; [exact Hsame|]. split; [exact Hchanged|].
  exact (reregisterOnChange_tracked_fields ["bar"]
           (Samples.settings "foo1" "bar2" "baz3")
           [Samples.settings "foo4" "bar2" "baz4"]
           (Samples.settings "foo9" "bar2" "baz9")
           (Samples.settings "foo5" "bar3" "baz5") Hsame Hchanged).
Defined.

(** The cases of [util.test.ts], replayed on the model. *)
Example test_register_with_initial_values :
  events (runController [] (Samples.settings "foo" "bar" "baz") []) =
    [Registered 0 (Samples.settings "foo" "bar" "baz")].
Proof. reflexivity. Qed.

Example test_register_with_changed_values :
  registerCallsIn
    (events (runController ["foo"; "bar"; "baz"] (Samples.settings "foo1" "bar2" "baz3")
               [Next (Samples.settings "foo4" "bar5" "baz6")])) =
    [Samples.settings "foo1" "bar2" "baz3"; Samples.settings "foo4" "bar5" "baz6"].
Proof. vm_compute. reflexivity. Qed.

Example test_register_only_with_included_changes :
  registerCallsIn
    (events (runController ["bar"] (Samples.settings "foo1" "bar2" "baz3")
               [Next (Samples.settings "foo4" "bar2" "baz4");
                Next (Samples.settings "foo5" "bar3" "baz5");
                Next (Samples.settings "foo6" "bar3" "baz6")])) =
    [Samples.settings "foo1" "bar2" "baz3"; Samples.settings "foo5" "bar3" "baz5"].
Proof. vm_compute. reflexivity. Qed.

Example test_unsubscribe :
  let c := runController ["foo"] (Samples.settings "foo" "" "")
             [Next (Samples.settings "foo" "" "");
              Next (Samples.settings "bar" "" "");
              Next (Samples.settings "baz" "" "")] in
  length (registerCallsIn (events c)) = 3 ∧
  disposedIn (events c) = [0; 1] ∧
  disposedIn (events (unsubscribe c)) = [0; 1; 2].
Proof. vm_compute. done. Qed.

(** ** Scenarios of the specification, run on the model *)

(** Precise backend returns [{definition: [locA]}]: [locA] is yielded and only
    the precise-definitions event is logged. *)
Example scenario_precise_definition :
  runGen (createDefinitionProvider Samples.imprecise
            (λ _ _, Some {| definition := Array [Samples.locA]; hover := None |})
            Samples.noDefinitions None Samples.doc Samples.pos) =
    [Invoked LsifBackend; Telemetry "lsifDefinitions"; Yielded (Single Samples.locA)].
Proof. reflexivity. Qed.

(** Precise backend returns null, no protocol backend, the heuristic backend
    yields [[locB]] then [[locB, locC]]: both are yielded badged and the
    heuristic-definitions event is logged once. *)
Example scenario_heuristic_definitions :
  runGen (createDefinitionProvider Samples.imprecise Samples.preciseNothing
            (λ _ _, [Array [Samples.locB]; Array [Samples.locB; Samples.locC]])
            None Samples.doc Samples.pos) =
    [Invoked LsifBackend; Invoked SearchBackend; Telemetry "searchDefinitions";
     Yielded (Array [withBadge Samples.imprecise Samples.locB]);
     Yielded (Array [withBadge Samples.imprecise Samples.locB;
                     withBadge Samples.imprecise Samples.locC])].
Proof. reflexivity. Qed.

(** Precise backend returns a hover text and an empty definition, the probe
    finds [[locD]]: one value, with the partial-precise-only alert. *)
Example scenario_partial_precise_hover :
  runGen (createHoverProvider Samples.alertConstants LSIFSupport.None
            Samples.preciseHoverOnly (λ _ _, [Array [Samples.locD]])
            Samples.noHovers None Samples.doc Samples.pos) =
    [Invoked LsifBackend; Invoked SearchDefinitionBackend; Telemetry "lsifHover";
     Yielded (withAlerts [Samples.alert "lsifPartialHoverOnly"] (Samples.hoverText "H"))].
Proof. reflexivity. Qed.

(** The references feature registers again when the external provider changes
    and not when another option does. *)
Example referencesFeature_reregisters :
  let options provider other : gmap string string :=
    <["externalReferencesProvider" := provider]> (<["other" := other]> ∅) in
  let c := referencesFeatureRegister (options "p1" "a") in
  events (onSnapshot referencesFeatureFields (options "p1" "b") c) = events c ∧
  events (onSnapshot referencesFeatureFields (options "p2" "b") c) =
    events c ++ [Disposed 0; Registered 1 (options "p2" "b")].
Proof. vm_compute. done. Qed.

(** ** Further properties of the composers *)

Section TelemetryBeforeYield.

Context {R : Type}.

Implicit Types es : list (Effect R).

Lemma telemetryBeforeYield_nil : telemetryBeforeYield (R:=R) [].
Proof. by intros i action Hi. Qed.

Lemma telemetryBeforeYield_invoked backend es :
  telemetryBeforeYield es → telemetryBeforeYield (Invoked backend :: es).
Proof. intros Hes [|i] action Hi; [done|]. by apply (Hes i action). Qed.

Lemma telemetryBeforeYield_yielded r es :
  telemetryBeforeYield es → telemetryBeforeYield (Yielded r :: es).
Proof. intros Hes [|i] action Hi; [done|]. by apply (Hes i action). Qed.

Lemma telemetryBeforeYield_telemetry action r es :
  telemetryBeforeYield es → telemetryBeforeYield (Telemetry action :: Yielded r :: es).
Proof.
  intros Hes [|[|i]] a Hi; [by exists r|done|]. by apply (Hes i a).
Qed.

Lemma telemetryBeforeYield_app es1 es2 :
  telemetryBeforeYield es1 → telemetryBeforeYield es2 →
  telemetryBeforeYield (es1 ++ es2).
Proof.
  intros H1 H2 i action Hi.
  destruct (decide (i < length es1)%nat) as [Hlt|Hge].
  - rewrite lookup_app_l in Hi by done.
    destruct (H1 i action Hi) as [r Hr]. exists r.
    rewrite lookup_app_l; [done|]. by apply lookup_lt_Some in Hr.
  - rewrite lookup_app_r in Hi by lia.
    destruct (H2 _ action Hi) as [r Hr]. exists r.
    rewrite lookup_app_r by lia. by replace (S i - length es1)%nat
      with (S (i - length es1)) by lia.
Qed.

Lemma telemetryBeforeYield_fmap_Yielded (rs : list R) :
  telemetryBeforeYield (Yielded <$> rs).
Proof.
  induction rs as [|r rs IH]; [apply telemetryBeforeYield_nil|].
  by apply telemetryBeforeYield_yielded.
Qed.

(** A loop that yields whenever it reaches [emitOnce] logs its event only
    right before a yield. *)
Lemma telemetryBeforeYield_loop {X Acc} action (emits : X → bool)
    (out : Acc → X → option R) (next : Acc → X → Acc) fired acc xs :
  (∀ acc x, emits x = true → is_Some (out acc x)) →
  telemetryBeforeYield (loopEffects action emits out next fired acc xs).
Proof.
  intros Hout. revert fired acc.
  induction xs as [|x xs IH]; intros fired acc; simpl; [apply telemetryBeforeYield_nil|].
  destruct (emits x) eqn:Hemits; simpl.
  - destruct (Hout acc x Hemits) as [r ->]. destruct fired; simpl.
    + by apply telemetryBeforeYield_yielded.
    + by apply telemetryBeforeYield_telemetry.
  - destruct (out acc x) as [r|]; simpl; [by apply telemetryBeforeYield_yielded|done].
Qed.

(** With every event directly followed by a yield, an invocation that yields
    nothing logs nothing. *)
Lemma telemetryBeforeYield_nothing es :
  telemetryBeforeYield es → yields es = [] → telemetry es = [].
Proof.
  intros Hes Hnone. destruct (telemetry es) as [|action rest] eqn:Hlogged; [done|].
  assert (Hin : action ∈ telemetry es) by (rewrite Hlogged; left).
  apply list_elem_of_omap in Hin as (e & He & Haction).
  destruct e as [| a |]; simplify_eq.
  apply list_elem_of_lookup in He as [i Hi].
  destruct (Hes i action Hi) as [r Hr].
  assert (Hr' : r ∈ yields es).
  { apply list_elem_of_omap. exists (Yielded r). split; [|done].
    apply list_elem_of_lookup. by exists (S i). }
  rewrite Hnone in Hr'. by apply elem_of_nil in Hr'.
Qed.

End TelemetryBeforeYield.

(** X1. In every invocation of each of the four composers a telemetry event is
    logged only right before a value is yielded to the caller; so an
    invocation that yields nothing logs nothing. *)
Theorem telemetry_only_with_a_yield :
  (∀ impreciseBadge lsifProvider searchProvider lspProvider textDocument position,
     let es := runGen (createDefinitionProvider impreciseBadge lsifProvider
                         searchProvider lspProvider textDocument position) in
     telemetryBeforeYield es ∧ (yields es = [] → telemetry es = [])) ∧
  (∀ impreciseBadge lsifProvider searchProvider lspProvider textDocument position context,
     let es := runGen (createReferencesProvider impreciseBadge lsifProvider
                         searchProvider lspProvider textDocument position context) in
     telemetryBeforeYield es ∧ (yields es = [] → telemetry es = [])) ∧
  (∀ alertConstants lsifSupport lsifProvider searchDefinitionProvider searchHoverProvider
     lspProvider textDocument position,
     let es := runGen (createHoverProvider alertConstants lsifSupport lsifProvider
                         searchDefinitionProvider searchHoverProvider lspProvider
                         textDocument position) in
     telemetryBeforeYield es ∧ (yields es = [] → telemetry es = [])) ∧
  (∀ lsifProvider searchProvider lspProvider textDocument position,
     let es := runGen (createDocumentHighlightProvider lsifProvider searchProvider
                         lspProvider textDocument position) in
     telemetryBeforeYield es ∧ (yields es = [] → telemetry es = [])).
Proof.
  assert (Hboth : ∀ R (es : list (Effect R)),
    telemetryBeforeYield es →
    telemetryBeforeYield es ∧ (yields es = [] → telemetry es = [])).
  { intros R es Hes. split; [done|]. by apply telemetryBeforeYield_nothing. }
  split_and!; intros; apply Hboth; subst es.
  - rewrite createDefinitionProvider_effects.
    apply telemetryBeforeYield_invoked.
    destruct (preciseDefinitions _) as [|l ls].
    + destruct lspProvider as [lsp|]; apply telemetryBeforeYield_invoked;
        apply telemetryBeforeYield_loop; intros acc x _; by eexists.
    + rewrite list_fmap_compose. simpl. apply telemetryBeforeYield_telemetry.
      apply telemetryBeforeYield_fmap_Yielded.
  - rewrite createReferencesProvider_effects. cbv zeta.
    apply telemetryBeforeYield_invoked, telemetryBeforeYield_app.
    + apply telemetryBeforeYield_loop. intros acc x ->. by eexists.
    + destruct lspProvider as [lsp|]; apply telemetryBeforeYield_invoked;
        apply telemetryBeforeYield_loop; intros acc x ->; by eexists.
  - rewrite createHoverProvider_effects.
    assert (Hfall : ∀ b, telemetryBeforeYield
              (fallThroughEffects alertConstants lsifSupport searchHoverProvider
                 lspProvider textDocument position b)).
    { intros b. unfold fallThroughEffects.
      destruct lspProvider as [lsp|]; apply telemetryBeforeYield_invoked;
        apply telemetryBeforeYield_loop; (intros acc [h|] Hsome; [by eexists|]);
        by apply bool_decide_eq_true in Hsome as [? ?]. }
    apply telemetryBeforeYield_invoked.
    destruct (lsifProvider textDocument position) as [lsifWrapper|]; [|apply Hfall].
    destruct (hover lsifWrapper) as [lsifHover|]; [|apply Hfall].
    destruct (nonEmpty (definition lsifWrapper)).
    + apply telemetryBeforeYield_telemetry, telemetryBeforeYield_nil.
    + apply telemetryBeforeYield_invoked, telemetryBeforeYield_telemetry,
        telemetryBeforeYield_nil.
  - rewrite createDocumentHighlightProvider_effects.
    apply telemetryBeforeYield_invoked, telemetryBeforeYield_loop.
    intros acc x ->. by eexists.
Qed.

(** X2. In the definition composer, when the precise backend has no definition
    and no protocol backend is configured, every value of the heuristic
    (search) backend is yielded, in order and badged as imprecise, the empty
    ones included; [searchDefinitions] is logged once if one of the values is
    non-empty and not at all otherwise; the protocol backend is not called. *)
Theorem definition_heuristic_fallback
    (impreciseBadge : BadgeAttachmentRenderOptions)
    (lsifProvider : DefinitionAndHoverProvider) (searchProvider : DefinitionProvider)
    (textDocument : TextDocument) (position : Position) :
  preciseDefinitions (lsifProvider textDocument position) = [] →
  let es := runGen (createDefinitionProvider impreciseBadge lsifProvider searchProvider
                      None textDocument position) in
  yields es =
    (λ r, badgeValues r impreciseBadge) <$> searchProvider textDocument position ∧
  telemetry es =
    (if existsb nonEmpty (searchProvider textDocument position)
     then ["searchDefinitions"] else []) ∧
  invoked es = [LsifBackend; SearchBackend].
Proof.
  intros Hprecise es. subst es.
  rewrite createDefinitionProvider_effects, Hprecise.
  set (loop := loopEffects _ _ _ _ _ _ _).
  split_and!.
  - change (yields (Invoked LsifBackend :: Invoked SearchBackend :: loop))
      with (yields loop).
    unfold loop. rewrite yields_loopEffects.
    apply (loopYields_total (λ _ _, tt) (λ r, badgeValues r impreciseBadge)).
  - change (telemetry (Invoked LsifBackend :: Invoked SearchBackend :: loop))
      with (telemetry loop).
    unfold loop. by rewrite telemetry_loopEffects.
  - change (invoked (Invoked LsifBackend :: Invoked SearchBackend :: loop))
      with (LsifBackend :: SearchBackend :: invoked loop).
    unfold loop. by rewrite invoked_loopEffects.
Qed.

Lemma definition_heuristic_fallback_witness :
  preciseDefinitions (Samples.preciseNothing Samples.doc Samples.pos) = [] ∧
  let es := runGen (createDefinitionProvider Samples.imprecise Samples.preciseNothing
                      Samples.definitionsWithEmpties None Samples.doc Samples.pos) in
  yields es =
    (λ r, badgeValues r Samples.imprecise) <$>
      Samples.definitionsWithEmpties Samples.doc Samples.pos ∧
  telemetry es =
    (if existsb nonEmpty (Samples.definitionsWithEmpties Samples.doc Samples.pos)
     then ["searchDefinitions"] else []) ∧
  invoked es = [LsifBackend; SearchBackend].
Proof.
  split; [reflexivity|].
  apply (definition_heuristic_fallback Samples.imprecise Samples.preciseNothing
           Samples.definitionsWithEmpties Samples.doc Samples.pos).
  reflexivity.
Defined.

(** X3. [badgeValues] returns a value of the shape of its input (null, one
    location, a list of as many locations), changes neither the URI nor the
    range of a location, leaves every location with the given badge, whatever
    badge it had, and keeps an empty value empty. *)
Theorem badgeValues_keeps_shape_and_identity
    (value : DefinitionResult) (badge' badge'' : BadgeAttachmentRenderOptions) :
  match value, badgeValues value badge' with
  | Null, Null => True
  | Single _, Single _ => True
  | Array before, Array after => length after = length before
  | _, _ => False
  end ∧
  locationIdentity <$> asArray (badgeValues value badge') =
    locationIdentity <$> asArray value ∧
  Forall (λ location, badge location = Some badge') (asArray (badgeValues value badge')) ∧
  nonEmpty (badgeValues value badge') = nonEmpty value ∧
  badgeValues (badgeValues value badge'') badge' = badgeValues value badge'.
Proof.
  destruct value as [|l|ls]; simpl.
  - by split_and!.
  - split_and!; try done. by repeat constructor.
  - split_and!.
    + apply length_fmap.
    + rewrite <- list_fmap_compose. by apply list_fmap_ext.
    + apply Forall_fmap, Forall_true. done.
    + by destruct ls.
    + unfold badgeValues. simpl. f_equal. rewrite <- list_fmap_compose.
      by apply list_fmap_ext.
Qed.

(** X4. The definition composer always calls the precise backend, first and
    once; it calls exactly one further backend when, and only when, the precise
    backend has no definition: the protocol backend if one is configured,
    the heuristic backend otherwise. So the heuristic backend is never called
    when a protocol backend is configured. *)
Theorem definition_backends
    (impreciseBadge : BadgeAttachmentRenderOptions)
    (lsifProvider : DefinitionAndHoverProvider) (searchProvider : DefinitionProvider)
    (lspProvider : option DefinitionProvider)
    (textDocument : TextDocument) (position : Position) :
  invoked (runGen (createDefinitionProvider impreciseBadge lsifProvider searchProvider
                     lspProvider textDocument position)) =
    LsifBackend ::
    match preciseDefinitions (lsifProvider textDocument position), lspProvider with
    | _ :: _, _ => []
    | [], Some _ => [LspBackend]
    | [], None => [SearchBackend]
    end.
Proof.
  rewrite createDefinitionProvider_effects.
  change (invoked (Invoked LsifBackend :: ?t)) with (LsifBackend :: invoked t).
  f_equal. destruct (preciseDefinitions _) as [|l ls].
  - destruct lspProvider as [lsp|].
    + change (invoked (Invoked LspBackend :: ?t)) with (LspBackend :: invoked t).
      by rewrite invoked_loopEffects.
    + change (invoked (Invoked SearchBackend :: ?t)) with (SearchBackend :: invoked t).
      by rewrite invoked_loopEffects.
  - rewrite list_fmap_compose.
    change (invoked (Telemetry "lsifDefinitions" :: ?t)) with (invoked t).
    apply invoked_Yielded.
Qed.

(** Two strings without a space, each followed by a space and more, are equal
    as soon as the whole strings are. *)
Lemma append_space_inj (a a' b b' : string) :
  hasSpace a = false → hasSpace a' = false →
  a +:+ " " +:+ b = a' +:+ " " +:+ b' → a = a' ∧ b = b'.
Proof.
  revert a'. induction a as [|c a IH]; intros [|c' a']; simpl.
  - intros _ _ Heq. by simplify_eq.
  - intros _ [Hc _]%orb_false_iff Heq. simplify_eq; try done.
  - intros [Hc _]%orb_false_iff _ Heq. simplify_eq; try done.
  - intros [_ Ha]%orb_false_iff [_ Ha']%orb_false_iff Heq. simplify_eq.
    destruct (IH a' Ha Ha') as [-> ->]; done.
Qed.

(** X5. The fingerprint [file] of a location depends on the host, the path and
    the fragment of its URI only (not on its range, its badge, or the scheme and
    the query of the URI), and when hosts and paths have no space in them, two
    locations have the same fingerprint exactly when they have the same host,
    path and fragment. *)
Theorem file_identifies_host_path_fragment (l1 l2 : Location) :
  hasSpace (host (uri l1)) = false → hasSpace (pathname (uri l1)) = false →
  hasSpace (host (uri l2)) = false → hasSpace (pathname (uri l2)) = false →
  file l1 = file l2 ↔
  host (uri l1) = host (uri l2) ∧ pathname (uri l1) = pathname (uri l2) ∧
  hash (uri l1) = hash (uri l2).
Proof.
  intros Hh1 Hp1 Hh2 Hp2. unfold file. split.
  - intros Heq. apply append_space_inj in Heq as [Hhost Heq]; [|done..].
    apply append_space_inj in Heq as [Hpath Hhash]; done.
  - by intros (-> & -> & ->).
Qed.

Lemma file_identifies_host_path_fragment_witness :
  hasSpace (host (uri Samples.locA)) = false ∧
  hasSpace (pathname (uri Samples.locA)) = false ∧
  hasSpace (host (uri Samples.locA')) = false ∧
  hasSpace (pathname (uri Samples.locA')) = false ∧
  (file Samples.locA = file Samples.locA' ↔
   host (uri Samples.locA) = host (uri Samples.locA') ∧
   pathname (uri Samples.locA) = pathname (uri Samples.locA') ∧
   hash (uri Samples.locA) = hash (uri Samples.locA')).
Proof.
  split_and!; [reflexivity..|].
  apply (file_identifies_host_path_fragment Samples.locA Samples.locA'); reflexivity.
Defined.

(** With a space in a host the fingerprints of two different files can
    collide. *)
Example file_collision_with_space :
  let l1 := {| uri := {| protocol := "git:"; host := "a b"; pathname := "c";
                         search := ""; hash := "" |};
               range := None; badge := None |} in
  let l2 := {| uri := {| protocol := "git:"; host := "a"; pathname := "b c";
                         search := ""; hash := "" |};
               range := None; badge := None |} in
  file l1 = file l2 ∧ host (uri l1) ≠ host (uri l2).
Proof. split; [reflexivity|discriminate]. Qed.

Lemma existsb_elem_of {A} (f : A → bool) (l : list A) :
  existsb f l = true ↔ ∃ x, x ∈ l ∧ f x = true.
Proof.
  induction l as [|a l IH]; simpl.
  - split; [done|]. intros (x & Hx & _). by apply elem_of_nil in Hx.
  - rewrite orb_true_iff, IH. split.
    + intros [Ha|(x & Hx & Hfx)]; [exists a; split; [left|done]|].
      exists x. split; [by right|done].
    + intros (x & [->|Hx]%elem_of_cons & Hfx); [by left|]. right. by exists x.
Qed.

(** X6. The references composer never yields null or an empty batch: every
    value it yields, in any of its three phases, is a non-empty list of
    locations. *)
Theorem references_never_yields_empty
    (impreciseBadge : BadgeAttachmentRenderOptions)
    (lsifProvider searchProvider : ReferencesProvider)
    (lspProvider : option ReferencesProvider)
    (textDocument : TextDocument) (position : Position) (context : ReferenceContext) :
  Forall (λ yielded, ∃ locations, yielded = Some locations ∧ locations ≠ [])
    (yields (runGen (createReferencesProvider impreciseBadge lsifProvider searchProvider
                       lspProvider textDocument position context))).
Proof.
  rewrite createReferencesProvider_yields. cbv zeta.
  assert (Hbatch : ∀ b : option (list Location),
            nonEmpty (ofBatch b) → ∃ l, b = Some l ∧ l ≠ []).
  { intros [l|] Hb; [|done]. exists l. split; [done|]. by apply nonEmpty_Array_iff. }
  apply Forall_app. split.
  - apply Forall_forall. intros b [Hb _]%list_elem_of_filter. by apply Hbatch.
  - destruct lspProvider as [lsp|]; apply Forall_fmap, Forall_forall.
    + intros b [Hb _]%list_elem_of_filter. simpl.
      destruct (Hbatch b Hb) as (l & -> & Hl). eexists. split; [done|]. simpl.
      intros [_ ?]%app_eq_nil. done.
    + intros kept [Hkept _]%list_elem_of_filter. simpl.
      eexists. split; [done|]. intros [_ Hnil]%app_eq_nil.
      by apply fmap_nil_inv in Hnil.
Qed.

Lemma outsideFilesOf_nothing batch : outsideFilesOf [] batch = asArray (ofBatch batch).
Proof.
  unfold outsideFilesOf. induction (asArray (ofBatch batch)) as [|l ls IH]; [done|].
  rewrite filter_cons, decide_True, IH; [done|]. simpl. apply not_elem_of_nil.
Qed.

Lemma lastNonEmptyBatch_nothing batches :
  Forall (λ batch, nonEmpty (ofBatch batch) = false) batches →
  lastNonEmptyBatch batches = [] ∧ nonEmptyBatches batches = [].
Proof.
  intros Hall. unfold lastNonEmptyBatch, nonEmptyBatches.
  induction Hall as [|b bs Hb _ [IH1 IH2]]; [done|]. simpl.
  assert (H1 : ¬ asArray (ofBatch b) ≠ []).
  { intros Hne%nonEmpty_ofBatch_iff. by rewrite Hb in Hne. }
  assert (H2 : ¬ nonEmpty (ofBatch b)) by (intros Hne; by rewrite Hb in Hne).
  rewrite !filter_cons. by rewrite !decide_False by done.
Qed.

Lemma fmap_filter_batches {A} (f : list Location → A)
    (batches : list (option (list Location))) :
  f <$> filter (λ kept, kept ≠ []) ((λ b, asArray (ofBatch b)) <$> batches) =
  (λ b, f (asArray (ofBatch b))) <$> nonEmptyBatches batches.
Proof.
  unfold nonEmptyBatches. induction batches as [|b bs IH]; [done|].
  rewrite fmap_cons, !filter_cons.
  destruct (decide (nonEmpty (ofBatch b))) as [Hb|Hb].
  - rewrite decide_True by by apply nonEmpty_ofBatch_iff.
    rewrite !fmap_cons. by rewrite IH.
  - rewrite decide_False; [done|]. by rewrite <- nonEmpty_ofBatch_iff.
Qed.

Lemma not_elem_of_optional_event (logged : bool) (action action' : string) :
  action ≠ action' → action ∉ (if logged then [action'] else []).
Proof.
  intros Hne. destruct logged; [by intros ?%list_elem_of_singleton|apply not_elem_of_nil].
Qed.

(** X7. When the precise backend yields no non-empty batch, the references
    composer yields nothing for it, logs no [lsifReferences], and puts no prefix
    in front of the other batches: each non-empty protocol batch is yielded as
    it is, and without a protocol backend each non-empty heuristic batch is
    yielded whole, nothing filtered out, every location badged. *)
Theorem references_without_precise_results
    (impreciseBadge : BadgeAttachmentRenderOptions)
    (lsifProvider searchProvider : ReferencesProvider)
    (lspProvider : option ReferencesProvider)
    (textDocument : TextDocument) (position : Position) (context : ReferenceContext) :
  Forall (λ batch, nonEmpty (ofBatch batch) = false)
    (lsifProvider textDocument position context) →
  let es := runGen (createReferencesProvider impreciseBadge lsifProvider searchProvider
                      lspProvider textDocument position context) in
  yields es =
    match lspProvider with
    | Some lspProvider =>
        (λ batch, Some (asArray (ofBatch batch))) <$>
          nonEmptyBatches (lspProvider textDocument position context)
    | None =>
        (λ batch, Some (withBadge impreciseBadge <$> asArray (ofBatch batch))) <$>
          nonEmptyBatches (searchProvider textDocument position context)
    end ∧
  ("lsifReferences" ∉ telemetry es).
Proof.
  intros Hnone es. subst es.
  destruct (lastNonEmptyBatch_nothing _ Hnone) as [Hlast Hbatches]. split.
  - rewrite createReferencesProvider_yields. cbv zeta. rewrite Hlast, Hbatches. simpl.
    destruct lspProvider as [lsp|]; [done|].
    rewrite (list_fmap_ext (outsideFilesOf []) (λ b, asArray (ofBatch b)))
      by (intros; apply outsideFilesOf_nothing).
    apply (fmap_filter_batches (λ kept, Some (withBadge impreciseBadge <$> kept))).
  - destruct (createReferencesProvider_telemetry_invoked impreciseBadge lsifProvider
                searchProvider lspProvider textDocument position context)
      as [Htelemetry _].
    rewrite Htelemetry.
    replace (existsb _ (lsifProvider textDocument position context)) with false.
    + simpl. destruct lspProvider as [lsp|]; by apply not_elem_of_optional_event.
    + symmetry. apply not_true_iff_false. intros (b & Hb & Hne)%existsb_elem_of.
      rewrite Forall_forall in Hnone. by rewrite (Hnone b Hb) in Hne.
Qed.

Lemma references_without_precise_results_witness :
  Forall (λ batch, nonEmpty (ofBatch batch) = false)
    (Samples.preciseEmptyBatches Samples.doc Samples.pos Samples.ctx) ∧
  let es := runGen (createReferencesProvider Samples.imprecise
                      Samples.preciseEmptyBatches Samples.referencesEverywhere None
                      Samples.doc Samples.pos Samples.ctx) in
  yields es =
    (λ batch, Some (withBadge Samples.imprecise <$> asArray (ofBatch batch))) <$>
      nonEmptyBatches (Samples.referencesEverywhere Samples.doc Samples.pos Samples.ctx) ∧
  ("lsifReferences" ∉ telemetry es).
Proof.
  assert (Hnone : Forall (λ batch, nonEmpty (ofBatch batch) = false)
            (Samples.preciseEmptyBatches Samples.doc Samples.pos Samples.ctx)).
  { by repeat constructor. }
  split; [exact Hnone|].
  exact (references_without_precise_results Samples.imprecise
           Samples.preciseEmptyBatches Samples.referencesEverywhere None
           Samples.doc Samples.pos Samples.ctx Hnone).
Defined.

Lemma elem_of_optional_event (logged : bool) (action action' : string) :
  action ∈ (if logged then [action'] else []) ↔ logged = true ∧ action = action'.
Proof.
  destruct logged.
  - rewrite list_elem_of_singleton. split; [by intros ->|by intros [_ ->]].
  - split; [by intros ?%elem_of_nil|by intros [? _]].
Qed.

(** X8. The references composer always calls two backends, the precise one and
    then the protocol one if it is configured, the heuristic one otherwise (also
    when the precise backend had results). It logs [lsifReferences] exactly when
    a precise batch is non-empty, [lspReferences] exactly when a protocol backend
    is configured and one of its batches is non-empty, [searchReferences] exactly
    when no protocol backend is configured and a heuristic batch has a location
    outside the files of the precise results; at most two events in all. *)
Theorem references_events_and_backends
    (impreciseBadge : BadgeAttachmentRenderOptions)
    (lsifProvider searchProvider : ReferencesProvider)
    (lspProvider : option ReferencesProvider)
    (textDocument : TextDocument) (position : Position) (context : ReferenceContext) :
  let es := runGen (createReferencesProvider impreciseBadge lsifProvider searchProvider
                      lspProvider textDocument position context) in
  let precise := lastNonEmptyBatch (lsifProvider textDocument position context) in
  invoked es =
    [LsifBackend; match lspProvider with Some _ => LspBackend | None => SearchBackend end] ∧
  ("lsifReferences" ∈ telemetry es ↔
     ∃ batch, batch ∈ lsifProvider textDocument position context ∧
              nonEmpty (ofBatch batch) = true) ∧
  ("lspReferences" ∈ telemetry es ↔
     ∃ lsp batch, lspProvider = Some lsp ∧ batch ∈ lsp textDocument position context ∧
                  nonEmpty (ofBatch batch) = true) ∧
  ("searchReferences" ∈ telemetry es ↔
     lspProvider = None ∧
     ∃ batch location, batch ∈ searchProvider textDocument position context ∧
                       location ∈ asArray (ofBatch batch) ∧
                       file location ∉ file <$> precise) ∧
  (length (telemetry es) ≤ 2)%nat.
Proof.
  intros es precise.
  destruct (createReferencesProvider_telemetry_invoked impreciseBadge lsifProvider
              searchProvider lspProvider textDocument position context)
    as [Htelemetry Hinvoked].
  fold es precise in Htelemetry, Hinvoked. rewrite Htelemetry.
  assert (Hsearch : ∀ batches,
    existsb (λ b, nonEmpty (Array (outsideFilesOf precise b))) batches = true ↔
    ∃ batch location, batch ∈ batches ∧ location ∈ asArray (ofBatch batch) ∧
                      file location ∉ file <$> precise).
  { intros batches. rewrite existsb_elem_of. split.
    - intros (b & Hb & Hne). apply Is_true_true, nonEmpty_Array_iff in Hne.
      destruct (outsideFilesOf precise b) as [|l ls] eqn:Hkept; [done|].
      assert (Hl : l ∈ outsideFilesOf precise b) by (rewrite Hkept; left).
      apply list_elem_of_filter in Hl as [Hfile Hl]. by exists b, l.
    - intros (b & l & Hb & Hl & Hfile). exists b. split; [done|].
      apply Is_true_true, nonEmpty_Array_iff. intros Hnil.
      assert (Hin : l ∈ outsideFilesOf precise b) by by apply list_elem_of_filter.
      rewrite Hnil in Hin. by apply elem_of_nil in Hin. }
  split_and!.
  - done.
  - rewrite elem_of_app, elem_of_optional_event, existsb_elem_of.
    split; [|intros Hex; left; by split].
    intros [[Hex _]|Hin]; [done|]. exfalso.
    destruct lspProvider; apply elem_of_optional_event in Hin as [_ ?]; done.
  - rewrite elem_of_app, elem_of_optional_event. split.
    + intros [[_ ?]|Hin]; [done|]. destruct lspProvider as [lsp|].
      * apply elem_of_optional_event in Hin as [Hex _].
        apply existsb_elem_of in Hex as (b & Hb & Hne). by exists lsp, b.
      * apply elem_of_optional_event in Hin as [_ ?]. done.
    + intros (lsp & b & -> & Hb & Hne). right.
      apply elem_of_optional_event. split; [|done].
      apply existsb_elem_of. by exists b.
  - rewrite elem_of_app, elem_of_optional_event. split.
    + intros [[_ ?]|Hin]; [done|]. destruct lspProvider as [lsp|].
      * apply elem_of_optional_event in Hin as [_ ?]. done.
      * apply elem_of_optional_event in Hin as [Hex _]. split; [done|].
        by apply Hsearch.
    + intros (-> & Hex). right. apply elem_of_optional_event. split; [|done].
      by apply Hsearch.
  - rewrite length_app. destruct (existsb _ (lsifProvider _ _ _)); simpl;
      destruct lspProvider; destruct (existsb _ _); simpl; lia.
Qed.

(** X9. Whenever the precise backend returns a hover text, the hover composer
    yields exactly one value, that text, and logs [lsifHover]; the protocol
    backend and the heuristic hover backend are not called, whether configured
    or not. The heuristic definition backend is probed exactly when the precise
    definition is empty, and the alert is the partial one
    ([lsifPartialHoverOnly]) exactly when that probe finds a non-empty value;
    otherwise it is the plain precise alert ([lsif]). *)
Theorem hover_precise_hover_text
    (alertConstants : HoverAlerts.t) (lsifSupport : LSIFSupport.t)
    (lsifProvider : DefinitionAndHoverProvider)
    (searchDefinitionProvider : DefinitionProvider)
    (searchHoverProvider : HoverProvider) (lspProvider : option HoverProvider)
    (textDocument : TextDocument) (position : Position)
    (lsifWrapper : DefinitionAndHover) (lsifHover : Hover) :
  lsifProvider textDocument position = Some lsifWrapper →
  hover lsifWrapper = Some lsifHover →
  let es := runGen (createHoverProvider alertConstants lsifSupport lsifProvider
                      searchDefinitionProvider searchHoverProvider lspProvider
                      textDocument position) in
  let probed := negb (nonEmpty (definition lsifWrapper)) in
  let partialPreciseData :=
    probed && existsb nonEmpty (searchDefinitionProvider textDocument position) in
  yields es =
    [withAlerts [if partialPreciseData
                 then HoverAlerts.lsifPartialHoverOnly alertConstants
                 else HoverAlerts.lsif alertConstants] lsifHover] ∧
  alerts <$> yields es =
    [Some [if partialPreciseData
           then HoverAlerts.lsifPartialHoverOnly alertConstants
           else HoverAlerts.lsif alertConstants]] ∧
  contents <$> yields es = [contents lsifHover] ∧
  hover_range <$> yields es = [hover_range lsifHover] ∧
  telemetry es = ["lsifHover"] ∧
  invoked es = LsifBackend :: (if probed then [SearchDefinitionBackend] else []).
Proof.
  intros Hwrapper Hhover es probed partialPreciseData.
  subst es probed partialPreciseData.
  rewrite createHoverProvider_effects, Hwrapper, Hhover.
  destruct (nonEmpty (definition lsifWrapper)); simpl; [done|].
  by destruct (existsb nonEmpty (searchDefinitionProvider textDocument position)).
Qed.

Lemma hover_precise_hover_text_witness :
  Samples.preciseHoverOnly Samples.doc Samples.pos =
    Some {| definition := Array []; hover := Some (Samples.hoverText "H") |} ∧
  let es := runGen (createHoverProvider Samples.alertConstants LSIFSupport.None
                      Samples.preciseHoverOnly Samples.noDefinitions
                      Samples.hoversWithNulls (Some Samples.hoversWithNulls)
                      Samples.doc Samples.pos) in
  yields es = [withAlerts [Samples.alert "lsif"] (Samples.hoverText "H")] ∧
  alerts <$> yields es = [Some [Samples.alert "lsif"]] ∧
  contents <$> yields es = ["H"] ∧
  hover_range <$> yields es = [None] ∧
  telemetry es = ["lsifHover"] ∧
  invoked es = [LsifBackend; SearchDefinitionBackend].
Proof.
  split; [reflexivity|].
  apply (hover_precise_hover_text Samples.alertConstants LSIFSupport.None
           Samples.preciseHoverOnly Samples.noDefinitions
           Samples.hoversWithNulls (Some Samples.hoversWithNulls)
           Samples.doc Samples.pos
           {| definition := Array []; hover := Some (Samples.hoverText "H") |}
           (Samples.hoverText "H")); reflexivity.
Defined.

(** ** The hover composer without a precise hover text *)

Section HoverFallThrough.

Variable alertConstants : HoverAlerts.t.
Variables (lsifSupport : LSIFSupport.t)
          (lsifProvider : DefinitionAndHoverProvider)
          (searchDefinitionProvider : DefinitionProvider)
          (searchHoverProvider : HoverProvider)
          (lspProvider : option HoverProvider)
          (textDocument : TextDocument) (position : Position).

Lemma createHoverProvider_effects_without_text :
  preciseHover (lsifProvider textDocument position) = None →
  runGen (createHoverProvider alertConstants lsifSupport lsifProvider
            searchDefinitionProvider searchHoverProvider lspProvider
            textDocument position) =
    Invoked LsifBackend ::
    fallThroughEffects alertConstants lsifSupport searchHoverProvider lspProvider
      textDocument position (hasPreciseDefinition (lsifProvider textDocument position)).
Proof.
  intros Hhover. rewrite createHoverProvider_effects.
  destruct (lsifProvider textDocument position) as [lsifWrapper|]; simpl in *; [|done].
  by rewrite Hhover.
Qed.

Lemma fallThroughEffects_invoked hasDefinition :
  invoked (fallThroughEffects alertConstants lsifSupport searchHoverProvider lspProvider
             textDocument position hasDefinition) =
    [match lspProvider with Some _ => LspBackend | None => SearchHoverBackend end].
Proof.
  unfold fallThroughEffects. destruct lspProvider as [lsp|].
  - change (invoked (Invoked LspBackend :: ?t)) with (LspBackend :: invoked t).
    by rewrite invoked_loopEffects.
  - change (invoked (Invoked SearchHoverBackend :: ?t))
      with (SearchHoverBackend :: invoked t).
    by rewrite invoked_loopEffects.
Qed.

Lemma fallThroughEffects_telemetry hasDefinition :
  telemetry (fallThroughEffects alertConstants lsifSupport searchHoverProvider lspProvider
               textDocument position hasDefinition) =
    match lspProvider with
    | Some lspProvider =>
        if existsb (λ r, bool_decide (is_Some r)) (lspProvider textDocument position)
        then ["lspHover"] else []
    | None =>
        if existsb (λ r, bool_decide (is_Some r)) (searchHoverProvider textDocument position)
        then ["searchHover"] else []
    end.
Proof.
  unfold fallThroughEffects. destruct lspProvider as [lsp|].
  - change (telemetry (Invoked LspBackend :: ?t)) with (telemetry t).
    by rewrite telemetry_loopEffects.
  - change (telemetry (Invoked SearchHoverBackend :: ?t)) with (telemetry t).
    by rewrite telemetry_loopEffects.
Qed.

Lemma fallThroughEffects_yields hasDefinition :
  ∃ pending,
    yields (fallThroughEffects alertConstants lsifSupport searchHoverProvider lspProvider
              textDocument position hasDefinition) =
      alertFirst pending
        (nonNull match lspProvider with
                 | Some lspProvider => lspProvider textDocument position
                 | None => searchHoverProvider textDocument position
                 end).
Proof.
  unfold fallThroughEffects. destruct lspProvider as [lsp|]; eexists.
  - change (yields (Invoked LspBackend :: ?t)) with (yields t).
    by rewrite yields_loopEffects, loopYields_hover.
  - change (yields (Invoked SearchHoverBackend :: ?t)) with (yields t).
    by rewrite yields_loopEffects, loopYields_hover.
Qed.

End HoverFallThrough.

Lemma alertFirst_identity pending hovers :
  hoverIdentity <$> alertFirst pending hovers = hoverIdentity <$> hovers.
Proof. destruct hovers as [|h hs]; [done|]. by destruct pending. Qed.

Lemma alertFirst_length pending hovers :
  length (alertFirst pending hovers) = length hovers.
Proof. by destruct hovers. Qed.

(** X10. When the precise backend returns no hover text, the hover composer
    calls exactly one further backend, the protocol one if it is configured and
    the heuristic hover backend otherwise; it drops the null values of that
    backend and yields one value for each of the others; it logs [lspHover]
    (respectively [searchHover]) once if there is a non-null value and nothing
    otherwise. In particular a configured protocol backend that yields nothing
    is not supplemented by the heuristic one, and the heuristic definition
    backend is not probed. *)
Theorem hover_without_precise_text
    (alertConstants : HoverAlerts.t) (lsifSupport : LSIFSupport.t)
    (lsifProvider : DefinitionAndHoverProvider)
    (searchDefinitionProvider : DefinitionProvider)
    (searchHoverProvider : HoverProvider) (lspProvider : option HoverProvider)
    (textDocument : TextDocument) (position : Position) :
  preciseHover (lsifProvider textDocument position) = None →
  let es := runGen (createHoverProvider alertConstants lsifSupport lsifProvider
                      searchDefinitionProvider searchHoverProvider lspProvider
                      textDocument position) in
  let results :=
    match lspProvider with
    | Some lspProvider => lspProvider textDocument position
    | None => searchHoverProvider textDocument position
    end in
  invoked es =
    [LsifBackend;
     match lspProvider with Some _ => LspBackend | None => SearchHoverBackend end] ∧
  length (yields es) = length (nonNull results) ∧
  telemetry es =
    (if existsb (λ r, bool_decide (is_Some r)) results
     then [match lspProvider with Some _ => "lspHover" | None => "searchHover" end]
     else []).
Proof.
  intros Hhover es results. subst es results.
  rewrite createHoverProvider_effects_without_text by done.
  set (b := hasPreciseDefinition _). split_and!.
  - change (invoked (Invoked LsifBackend :: ?t)) with (LsifBackend :: invoked t).
    by rewrite fallThroughEffects_invoked.
  - change (yields (Invoked LsifBackend :: ?t)) with (yields t).
    destruct (fallThroughEffects_yields alertConstants lsifSupport searchHoverProvider
                lspProvider textDocument position b) as [pending ->].
    apply alertFirst_length.
  - change (telemetry (Invoked LsifBackend :: ?t)) with (telemetry t).
    rewrite fallThroughEffects_telemetry. by destruct lspProvider.
Qed.

Lemma hover_without_precise_text_witness :
  preciseHover (Samples.preciseDefinitionOnly Samples.doc Samples.pos) = None ∧
  let es := runGen (createHoverProvider Samples.alertConstants LSIFSupport.Experimental
                      Samples.preciseDefinitionOnly Samples.definitionsWithEmpties
                      Samples.hoversWithNulls (Some Samples.noHovers)
                      Samples.doc Samples.pos) in
  invoked es = [LsifBackend; LspBackend] ∧
  length (yields es) = 0 ∧
  telemetry es = [].
Proof.
  split; [reflexivity|].
  apply (hover_without_precise_text Samples.alertConstants LSIFSupport.Experimental
           Samples.preciseDefinitionOnly Samples.definitionsWithEmpties
           Samples.hoversWithNulls (Some Samples.noHovers)
           Samples.doc Samples.pos).
  reflexivity.
Defined.

(** X11. Every hover the composer yields has the contents and the range of a
    hover a backend supplied, in the backend's order: of the precise hover text
    if there is one, else of the non-null values of the protocol backend if it
    is configured, else of those of the heuristic hover backend. Only the alerts
    are the composer's. *)
Theorem hover_keeps_contents_and_range
    (alertConstants : HoverAlerts.t) (lsifSupport : LSIFSupport.t)
    (lsifProvider : DefinitionAndHoverProvider)
    (searchDefinitionProvider : DefinitionProvider)
    (searchHoverProvider : HoverProvider) (lspProvider : option HoverProvider)
    (textDocument : TextDocument) (position : Position) :
  hoverIdentity <$>
    yields (runGen (createHoverProvider alertConstants lsifSupport lsifProvider
                      searchDefinitionProvider searchHoverProvider lspProvider
                      textDocument position)) =
  hoverIdentity <$>
    hoverSources lsifProvider searchHoverProvider lspProvider textDocument position.
Proof.
  unfold hoverSources.
  destruct (preciseHover (lsifProvider textDocument position)) as [lsifHover|] eqn:Hhover.
  - rewrite createHoverProvider_effects.
    destruct (lsifProvider textDocument position) as [lsifWrapper|]; simpl in *; [|done].
    rewrite Hhover. by destruct (nonEmpty (definition lsifWrapper)).
  - rewrite createHoverProvider_effects_without_text by done.
    change (yields (Invoked LsifBackend :: ?t)) with (yields t).
    destruct (fallThroughEffects_yields alertConstants lsifSupport searchHoverProvider
                lspProvider textDocument position
                (hasPreciseDefinition (lsifProvider textDocument position)))
      as [pending ->].
    apply alertFirst_identity.
Qed.

Lemma hasPreciseDefinition_preciseDefinitions answer :
  hasPreciseDefinition answer = true ↔ preciseDefinitions answer ≠ [].
Proof.
  destruct answer as [[[|l|ls] h]|]; simpl; try done.
  by destruct ls.
Qed.

(** X12. The hover composer and the definition composer agree on what a
    precise definition is. For a precise answer without hover text and with no
    protocol hover provider, the first non-null heuristic hover is yielded with
    the partial-definition alert ([lsifPartialDefinitionOnly]) exactly in the
    case where the definition composer, given the same precise provider, logs
    [lsifDefinitions] (which is when it calls no backend but the precise one);
    in the other case it is yielded with the alert of the language's
    precise-support level. *)
Theorem hover_and_definition_agree_on_precise_definition
    (impreciseBadge : BadgeAttachmentRenderOptions)
    (alertConstants : HoverAlerts.t) (lsifSupport : LSIFSupport.t)
    (lsifProvider : DefinitionAndHoverProvider)
    (searchDefinitionProvider : DefinitionProvider)
    (searchHoverProvider : HoverProvider)
    (lspDefinitionProvider : option DefinitionProvider)
    (textDocument : TextDocument) (position : Position) :
  preciseHover (lsifProvider textDocument position) = None →
  let definitionEs :=
    runGen (createDefinitionProvider impreciseBadge lsifProvider
              searchDefinitionProvider lspDefinitionProvider textDocument position) in
  let hoverEs :=
    runGen (createHoverProvider alertConstants lsifSupport lsifProvider
              searchDefinitionProvider searchHoverProvider None textDocument position) in
  let preciseDefinition := bool_decide ("lsifDefinitions" ∈ telemetry definitionEs) in
  (preciseDefinition = true ↔ invoked definitionEs = [LsifBackend]) ∧
  alerts <$> head (yields hoverEs) =
    (λ _, if preciseDefinition
          then Some [HoverAlerts.lsifPartialDefinitionOnly alertConstants]
          else searchAlerts alertConstants lsifSupport) <$>
      head (nonNull (searchHoverProvider textDocument position)).
Proof.
  intros Hhover definitionEs hoverEs preciseDefinition.
  assert (Hprecise : preciseDefinition =
                     hasPreciseDefinition (lsifProvider textDocument position)).
  { subst preciseDefinition definitionEs. apply eq_true_iff_eq.
    rewrite bool_decide_eq_true, hasPreciseDefinition_preciseDefinitions.
    rewrite createDefinitionProvider_effects.
    change (telemetry (Invoked LsifBackend :: ?t)) with (telemetry t).
    destruct (preciseDefinitions (lsifProvider textDocument position)) as [|l ls].
    - split; [|done]. destruct lspDefinitionProvider as [lsp|].
      + change (telemetry (Invoked LspBackend :: ?t)) with (telemetry t).
        rewrite telemetry_loopEffects. simpl.
        by intros [_ ?]%elem_of_optional_event.
      + change (telemetry (Invoked SearchBackend :: ?t)) with (telemetry t).
        rewrite telemetry_loopEffects. simpl.
        by intros [_ ?]%elem_of_optional_event.
    - split; [done|]. intros _. left. }
  split.
  - rewrite Hprecise, hasPreciseDefinition_preciseDefinitions.
    subst definitionEs. rewrite createDefinitionProvider_effects.
    destruct (preciseDefinitions (lsifProvider textDocument position)) as [|l ls].
    + split; [done|]. destruct lspDefinitionProvider; discriminate.
    + split; [intros _|done]. rewrite list_fmap_compose.
      change (invoked (Invoked LsifBackend :: Telemetry "lsifDefinitions" :: ?t))
        with (LsifBackend :: invoked t). by rewrite invoked_Yielded.
  - rewrite Hprecise. subst hoverEs.
    rewrite createHoverProvider_effects_without_text by done.
    unfold fallThroughEffects.
    change (yields (Invoked LsifBackend :: Invoked SearchHoverBackend :: ?t))
      with (yields t).
    rewrite yields_loopEffects, loopYields_hover.
    destruct (nonNull (searchHoverProvider textDocument position)) as [|first others];
      [done|].
    by destruct (hasPreciseDefinition (lsifProvider textDocument position)), lsifSupport.
Qed.

Lemma hover_and_definition_agree_on_precise_definition_witness :
  preciseHover (Samples.preciseDefinitionOnly Samples.doc Samples.pos) = None ∧
  let definitionEs :=
    runGen (createDefinitionProvider Samples.imprecise Samples.preciseDefinitionOnly
              Samples.definitionsWithEmpties None Samples.doc Samples.pos) in
  let hoverEs :=
    runGen (createHoverProvider Samples.alertConstants LSIFSupport.Robust
              Samples.preciseDefinitionOnly Samples.definitionsWithEmpties
              Samples.hoversWithNulls None Samples.doc Samples.pos) in
  let preciseDefinition := bool_decide ("lsifDefinitions" ∈ telemetry definitionEs) in
  (preciseDefinition = true ↔ invoked definitionEs = [LsifBackend]) ∧
  alerts <$> head (yields hoverEs) =
    (λ _, if preciseDefinition
          then Some [Samples.alert "lsifPartialDefinitionOnly"]
          else searchAlerts Samples.alertConstants LSIFSupport.Robust) <$>
      head (nonNull (Samples.hoversWithNulls Samples.doc Samples.pos)).
Proof.
  split; [reflexivity|].
  apply (hover_and_definition_agree_on_precise_definition Samples.imprecise
           Samples.alertConstants LSIFSupport.Robust Samples.preciseDefinitionOnly
           Samples.definitionsWithEmpties Samples.hoversWithNulls None
           Samples.doc Samples.pos).
  reflexivity.
Defined.

(** ** The reconfiguration controller over a history of snapshots *)

Section ReregisterHistoryFacts.

Context {V : Type} `{EqDecision V}.

Implicit Types (c : Controller V) (value initial before : gmap string V).
Implicit Types (fields : list string) (history : list (gmap string V)).

Lemma registerCallsIn_app (es1 es2 : list (RegistrationEvent V)) :
  registerCallsIn (es1 ++ es2) = registerCallsIn es1 ++ registerCallsIn es2.
Proof. apply omap_app. Qed.

Lemma sameFields_agree fields (a a' b : gmap string V) :
  agreeOn fields a a' → sameFields fields a b = sameFields fields a' b.
Proof.
  intros Hagree. apply eq_true_iff_eq. rewrite !sameFields_agreeOn. split.
  - intros Hab field Hin. by rewrite <- (Hagree field Hin), (Hab field Hin).
  - intros Hab field Hin. by rewrite (Hagree field Hin), (Hab field Hin).
Qed.

Lemma subscribed_dispose c : subscribed (disposeRegistration c) = subscribed c.
Proof. unfold disposeRegistration. by destruct (registration c). Qed.

Lemma registerCallsIn_dispose c :
  registerCallsIn (events (disposeRegistration c)) = registerCallsIn (events c).
Proof.
  unfold disposeRegistration. destruct (registration c); [|done]. simpl.
  rewrite registerCallsIn_app. simpl. by rewrite app_nil_r.
Qed.

(** From a subscribed controller whose stored snapshot has the tracked fields
    of [before], a history adds the calls of its triggering snapshots. *)
Lemma registerCallsIn_history fields c before history :
  subscribed c = true → agreeOn fields (previous c) before →
  registerCallsIn (events (foldl (stepController fields) c (Next <$> history))) =
    registerCallsIn (events c) ++ triggering fields before history.
Proof.
  revert c before. induction history as [|value history IH]; intros c before Hsub Hagree.
  - simpl. by rewrite app_nil_r.
  - rewrite fmap_cons. simpl. unfold onSnapshot. rewrite Hsub.
    rewrite (sameFields_agree fields _ before value Hagree).
    destruct (sameFields fields before value) eqn:Hsame.
    + apply IH; [done|]. apply sameFields_agreeOn.
      by rewrite (sameFields_agree fields _ before value Hagree).
    + rewrite IH with (before := value).
      * simpl. rewrite registerCallsIn_app, registerCallsIn_dispose. simpl.
        by rewrite <- app_assoc.
      * simpl. by rewrite subscribed_dispose.
      * by intros field _.
Qed.

Lemma length_registeredIn (es : list (RegistrationEvent V)) :
  length (registeredIn es) = length (registerCallsIn es).
Proof.
  induction es as [|[h v|h] es IH]; [done| |exact IH].
  cbn. by f_equal.
Qed.

Lemma triggering_no_fields before history : triggering (V:=V) [] before history = [].
Proof. revert before. induction history as [|value history IH]; intros before; simpl; auto. Qed.

(** While only snapshots arrive: the handles registered so far are numbered
    in order, all are disposed but the last, which the controller holds. *)
Lemma handles_of_history fields initial history :
  let c := runController fields initial (snapshotsOf history) in
  subscribed c = true ∧
  ∃ n, registerCalls c = S n ∧ registration c = Some n ∧
       registeredIn (events c) = seq 0 (S n) ∧
       disposedIn (events c) = seq 0 n.
Proof.
  unfold runController, snapshotsOf.
  induction history as [|value history IH] using rev_ind.
  - simpl. split; [done|]. by exists 0.
  - cbv zeta in IH. rewrite fmap_app. simpl. rewrite foldl_snoc. simpl.
    destruct IH as (Hsub & n & Hcalls & Hheld & Hregistered & Hdisposed).
    set (c := foldl _ _ _) in *.
    unfold onSnapshot. rewrite Hsub.
    destruct (sameFields fields (previous c) value); [split; [done|by exists n]|].
    unfold disposeRegistration. rewrite Hheld. simpl.
    split; [done|]. exists (S n). rewrite Hcalls. split_and!; [done|done| |].
    + change (0 :: seq 1 (S n)) with (seq 0 (S (S n))).
      rewrite (seq_S (S n) 0), !registeredIn_app, Hregistered.
      by rewrite app_nil_r.
    + change (0 :: seq 1 n) with (seq 0 (S n)).
      rewrite (seq_S n 0), !disposedIn_app, Hdisposed.
      by rewrite app_nil_r.
Qed.

End ReregisterHistoryFacts.

(** X15. The snapshots [reregisterOnChange] passes to [registerFn] are the
    initial one and then exactly the snapshots that differ in a tracked field
    from the snapshot emitted right before them, in order; with no tracked
    field the initial call is the only one. *)
Theorem registerFn_calls_are_the_changes {V} `{EqDecision V}
    (fields : list string) (initial : gmap string V) (history : list (gmap string V)) :
  registerCallsIn (events (runController fields initial (snapshotsOf history))) =
    initial :: triggering fields initial history ∧
  registerCallsIn (events (runController [] initial (snapshotsOf history))) = [initial].
Proof.
  assert (Hcalls : ∀ fs, registerCallsIn
            (events (runController fs initial (snapshotsOf history))) =
            initial :: triggering fs initial history).
  { intros fs. unfold runController, snapshotsOf.
    rewrite registerCallsIn_history with (before := initial); [done|done|].
    by intros field _. }
  split; [apply Hcalls|]. by rewrite Hcalls, triggering_no_fields.
Qed.

(** X16. No handle leaks: while the controller is subscribed, the handles it
    got from [registerFn] are all disposed, in the order they were registered,
    except the last, which it holds; and once the controller is disposed every
    handle it ever got has been disposed exactly once. *)
Theorem no_registration_leaks {V} `{EqDecision V}
    (fields : list string) (initial : gmap string V) (history : list (gmap string V)) :
  let c := runController fields initial (snapshotsOf history) in
  ∃ held,
    registration c = Some held ∧
    registeredIn (events c) = disposedIn (events c) ++ [held] ∧
    disposedIn (events (unsubscribe c)) = registeredIn (events (unsubscribe c)) ∧
    NoDup (registeredIn (events (unsubscribe c))) ∧
    length (registeredIn (events c)) = length (registerCallsIn (events c)).
Proof.
  intros c.
  destruct (handles_of_history fields initial history)
    as (Hsub & n & Hcalls & Hheld & Hregistered & Hdisposed).
  fold c in Hsub, Hcalls, Hheld, Hregistered, Hdisposed.
  exists n. unfold unsubscribe. rewrite Hsub.
  unfold disposeRegistration. rewrite Hheld. simpl.
  rewrite disposedIn_app, registeredIn_app, Hregistered, Hdisposed.
  assert (Hseq : seq 0 (S n) = seq 0 n ++ [n]) by apply (seq_S n 0).
  simpl (disposedIn [_]). simpl (registeredIn [_]). rewrite app_nil_r.
  split_and!; [done|done|done| |].
  - apply NoDup_ListNoDup, List.seq_NoDup.
  - rewrite <- Hregistered. apply length_registeredIn.
Qed.

Lemma length_optional_event (logged : bool) (action : string) :
  (length (if logged then [action] else []) ≤ 1)%nat.
Proof. destruct logged; simpl; lia. Qed.

(** X17. One invocation of the definition composer, of the hover composer or
    of the document-highlight composer logs at most one telemetry event: what
    it yields comes from one backend only. (The references composer can log
    two, one for the precise results and one for those it appends.) *)
Theorem one_event_per_invocation :
  (∀ impreciseBadge lsifProvider searchProvider lspProvider textDocument position,
     (length (telemetry (runGen (createDefinitionProvider impreciseBadge lsifProvider
                                   searchProvider lspProvider textDocument position)))
      ≤ 1)%nat) ∧
  (∀ alertConstants lsifSupport lsifProvider searchDefinitionProvider searchHoverProvider
     lspProvider textDocument position,
     (length (telemetry (runGen (createHoverProvider alertConstants lsifSupport
                                   lsifProvider searchDefinitionProvider
                                   searchHoverProvider lspProvider textDocument position)))
      ≤ 1)%nat) ∧
  (∀ lsifProvider searchProvider lspProvider textDocument position,
     (length (telemetry (runGen (createDocumentHighlightProvider lsifProvider
                                   searchProvider lspProvider textDocument position)))
      ≤ 1)%nat).
Proof.
  split_and!; intros.
  - rewrite createDefinitionProvider_effects.
    change (telemetry (Invoked LsifBackend :: ?t)) with (telemetry t).
    destruct (preciseDefinitions _) as [|l ls].
    + destruct lspProvider as [lsp|].
      * change (telemetry (Invoked LspBackend :: ?t)) with (telemetry t).
        rewrite telemetry_loopEffects. apply length_optional_event.
      * change (telemetry (Invoked SearchBackend :: ?t)) with (telemetry t).
        rewrite telemetry_loopEffects. apply length_optional_event.
    + rewrite list_fmap_compose.
      change (telemetry (Telemetry "lsifDefinitions" :: ?t))
        with ("lsifDefinitions" :: telemetry t).
      by rewrite telemetry_Yielded.
  - rewrite createHoverProvider_effects.
    change (telemetry (Invoked LsifBackend :: ?t)) with (telemetry t).
    assert (Hfall : ∀ b, (length (telemetry
              (fallThroughEffects alertConstants lsifSupport searchHoverProvider
                 lspProvider textDocument position b)) ≤ 1)%nat).
    { intros b. rewrite fallThroughEffects_telemetry.
      destruct lspProvider; apply length_optional_event. }
    destruct (lsifProvider textDocument position) as [lsifWrapper|]; [|apply Hfall].
    destruct (hover lsifWrapper) as [lsifHover|]; [|apply Hfall].
    by destruct (nonEmpty (definition lsifWrapper)).
  - rewrite createDocumentHighlightProvider_effects.
    change (telemetry (Invoked LsifBackend :: ?t)) with (telemetry t).
    rewrite telemetry_loopEffects. apply length_optional_event.
Qed.

(** ** The provider wrapper *)

Lemma afterCalls_snoc
    (impreciseBadge : BadgeAttachmentRenderOptions) (alertConstants : HoverAlerts.t)
    (lsifProviders : CombinedProviders.t) (searchProviders : Providers.t)
    (lsifSupport : option LSIFSupport.t) (calls : list WrapperCall) (call : WrapperCall) :
  afterCalls impreciseBadge alertConstants lsifProviders searchProviders lsifSupport
    (calls ++ [call]) =
  afterCall impreciseBadge alertConstants lsifProviders searchProviders lsifSupport
    (afterCalls impreciseBadge alertConstants lsifProviders searchProviders lsifSupport
       calls) call.
Proof. unfold afterCalls. by rewrite foldl_snoc. Qed.

(** X18. The object [wrapped] of a provider wrapper always has the active
    providers: after any sequence of calls of the wrapper's four functions, each
    of its fields is unset if the function of that kind was never called, and
    is otherwise the provider the last call of that kind returned; a call of
    one kind leaves the other three fields as they were. *)
Theorem wrapped_has_the_active_providers
    (impreciseBadge : BadgeAttachmentRenderOptions) (alertConstants : HoverAlerts.t)
    (lsifProviders : CombinedProviders.t) (searchProviders : Providers.t)
    (lsifSupport : option LSIFSupport.t) (calls : list WrapperCall) :
  let wrapped := afterCalls impreciseBadge alertConstants lsifProviders searchProviders
                   lsifSupport calls in
  SourcegraphProviders.definition wrapped =
    (λ lsp, (wrapDefinition impreciseBadge lsifProviders searchProviders lsp
               SourcegraphProviders.empty).1) <$> last (definitionCalls calls) ∧
  SourcegraphProviders.references wrapped =
    (λ lsp, (wrapReferences impreciseBadge lsifProviders searchProviders lsp
               SourcegraphProviders.empty).1) <$> last (referencesCalls calls) ∧
  SourcegraphProviders.hover wrapped =
    (λ lsp, (wrapHover alertConstants lsifProviders searchProviders lsifSupport lsp
               SourcegraphProviders.empty).1) <$> last (hoverCalls calls) ∧
  SourcegraphProviders.documentHighlights wrapped =
    (λ lsp, (wrapDocumentHighlights lsifProviders searchProviders lsp
               SourcegraphProviders.empty).1) <$> last (documentHighlightsCalls calls).
Proof.
  induction calls as [|call calls IH] using rev_ind; [done|].
  cbv zeta in *. rewrite afterCalls_snoc.
  unfold definitionCalls, referencesCalls, hoverCalls, documentHighlightsCalls in *.
  rewrite !omap_app.
  destruct IH as (Hd & Hr & Hh & Hdh).
  destruct call; simpl; rewrite ?app_nil_r, ?last_snoc; by split_and!.
Qed.

(** X19. A hover provider made by a wrapper for a language specification that
    declares no precise-support level behaves as for the level "none": with no
    protocol provider, no precise hover text and no precise definition, the
    first non-null hover of the wrapper's heuristic hover provider is yielded
    with the alert [searchLSIFSupportNone], the later ones as they are, and the
    heuristic definition provider of the wrapper is not called. *)
Theorem wrapper_hover_defaults_to_no_support
    (alertConstants : HoverAlerts.t)
    (lsifProviders : CombinedProviders.t) (searchProviders : Providers.t)
    (wrapped : SourcegraphProviders.t)
    (textDocument : TextDocument) (position : Position) :
  preciseHover (CombinedProviders.definitionAndHover lsifProviders textDocument position)
    = None →
  hasPreciseDefinition
    (CombinedProviders.definitionAndHover lsifProviders textDocument position) = false →
  let es := runGen ((wrapHover alertConstants lsifProviders searchProviders None None
                       wrapped).1 textDocument position) in
  yields es =
    alertFirst (Some [HoverAlerts.searchLSIFSupportNone alertConstants])
      (nonNull (Providers.hover searchProviders textDocument position)) ∧
  alerts <$> head (yields es) =
    (λ _, Some [HoverAlerts.searchLSIFSupportNone alertConstants]) <$>
      head (nonNull (Providers.hover searchProviders textDocument position)) ∧
  tail (yields es) =
    tail (nonNull (Providers.hover searchProviders textDocument position)) ∧
  contents <$> yields es =
    contents <$> nonNull (Providers.hover searchProviders textDocument position) ∧
  hover_range <$> yields es =
    hover_range <$> nonNull (Providers.hover searchProviders textDocument position) ∧
  invoked es = [LsifBackend; SearchHoverBackend].
Proof.
  intros Hhover Hdefinition es.
  assert (Hyields : yields es =
    alertFirst (Some [HoverAlerts.searchLSIFSupportNone alertConstants])
      (nonNull (Providers.hover searchProviders textDocument position))).
  { subst es. simpl.
    rewrite createHoverProvider_effects_without_text by done.
    rewrite Hdefinition. unfold fallThroughEffects.
    change (yields (Invoked LsifBackend :: Invoked SearchHoverBackend :: ?t))
      with (yields t).
    by rewrite yields_loopEffects, loopYields_hover. }
  rewrite Hyields. split_and!; try done.
  - by destruct (nonNull _).
  - by destruct (nonNull _).
  - by destruct (nonNull _).
  - by destruct (nonNull _).
  - subst es. simpl.
    rewrite createHoverProvider_effects_without_text by done.
    rewrite Hdefinition. unfold fallThroughEffects.
    change (invoked (Invoked LsifBackend :: Invoked SearchHoverBackend :: ?t))
      with (LsifBackend :: SearchHoverBackend :: invoked t).
    by rewrite invoked_loopEffects.
Qed.

Lemma wrapper_hover_defaults_to_no_support_witness :
  let lsifProviders :=
    {| CombinedProviders.definitionAndHover := Samples.preciseNothing;
       CombinedProviders.references := Samples.noReferences;
       CombinedProviders.documentHighlights := λ _ _, [] |} in
  let searchProviders :=
    {| Providers.definition := Samples.definitionsWithEmpties;
       Providers.references := Samples.referencesEverywhere;
       Providers.hover := Samples.hoversWithNulls;
       Providers.documentHighlights := λ _ _, [] |} in
  preciseHover (CombinedProviders.definitionAndHover lsifProviders Samples.doc Samples.pos)
    = None ∧
  hasPreciseDefinition
    (CombinedProviders.definitionAndHover lsifProviders Samples.doc Samples.pos) = false ∧
  let es := runGen ((wrapHover Samples.alertConstants lsifProviders searchProviders
                       None None SourcegraphProviders.empty).1 Samples.doc Samples.pos) in
  yields es =
    [withAlerts [Samples.alert "searchLSIFSupportNone"] (Samples.hoverText "first");
     Samples.hoverText "second"] ∧
  alerts <$> head (yields es) = Some (Some [Samples.alert "searchLSIFSupportNone"]) ∧
  tail (yields es) = [Samples.hoverText "second"] ∧
  contents <$> yields es = ["first"; "second"] ∧
  hover_range <$> yields es = [None; None] ∧
  invoked es = [LsifBackend; SearchHoverBackend].
Proof.
  intros lsifProviders searchProviders.
  split; [reflexivity|]. split; [reflexivity|].
  apply (wrapper_hover_defaults_to_no_support Samples.alertConstants lsifProviders
           searchProviders SourcegraphProviders.empty Samples.doc Samples.pos);
    reflexivity.
Defined.
